(** * Interactive variable input template: value parser and form controller

    A shallow embedding of [interactive_calc_template.py].

    - [parse_value] is the value parser: normalisation, lookup in
      [CONSTANTS], evaluation of the text as a Python expression in the
      namespace the function builds, [float], string fallback.
    - [VariableInterface] is the form controller: the variable count, the
      two insertion-ordered dictionaries of text widgets, the rebuild of the
      rows on a count change and the run handler.

    Python values are modelled by [pyval]; a Python [float] and a
    [numpy.float64] are both IEEE binary64 numbers and are carried by Rocq's
    primitive floats.  The builtins [eval] and [float] are modelled on a
    fragment of their input language; outside it the model answers
    [Unmodelled] (resp. [None]) instead of guessing.  The fragment holds
    no text on which [eval] writes a warning to standard error, none that
    comes near the limits of the compiler, and no integer too long to be
    printed.  [parse_value_with] is the same function over the builtins
    themselves, for every text. *)

From Stdlib Require Import ZArith List String Ascii Bool Lia FinFun Sorted.
From Stdlib Require Import Floats.
From Stdlib Require Import DecimalString DecimalZ.
Import ListNotations.

Local Open Scope string_scope.
Local Open Scope Z_scope.

(* ------------------------------------------------------------------ *)
(** ** Text helpers: [str.strip], [str.lower] on ASCII text *)

Module Text.

Definition code (c : ascii) : N := N_of_ascii c.

Definition is_ascii_char (c : ascii) : bool := (code c <? 128)%N.

(** The ASCII characters for which [str.isspace] holds: TAB, LF, VT, FF,
    CR, the four separators FS, GS, RS, US, and the space. *)
Definition is_space (c : ascii) : bool :=
  let n := code c in
  ((9 <=? n) && (n <=? 13) || (28 <=? n) && (n <=? 32))%N.

Definition is_digit (c : ascii) : bool :=
  let n := code c in ((48 <=? n) && (n <=? 57))%N.

Definition is_upper (c : ascii) : bool :=
  let n := code c in ((65 <=? n) && (n <=? 90))%N.

Definition is_lower (c : ascii) : bool :=
  let n := code c in ((97 <=? n) && (n <=? 122))%N.

Definition is_ident_start (c : ascii) : bool :=
  is_lower c || is_upper c || Ascii.eqb c "_".

Definition is_ident_char (c : ascii) : bool :=
  is_ident_start c || is_digit c.

Fixpoint forallb (p : ascii -> bool) (s : string) : bool :=
  match s with
  | EmptyString => true
  | String c s' => p c && forallb p s'
  end.

Definition is_ascii (s : string) : bool := forallb is_ascii_char s.

Fixpoint rev_onto (s acc : string) : string :=
  match s with
  | EmptyString => acc
  | String c s' => rev_onto s' (String c acc)
  end.

Definition rev (s : string) : string := rev_onto s EmptyString.

Fixpoint lstrip (s : string) : string :=
  match s with
  | EmptyString => EmptyString
  | String c s' => if is_space c then lstrip s' else s
  end.

Definition rstrip (s : string) : string := rev (lstrip (rev s)).

Definition strip (s : string) : string := rstrip (lstrip s).

Definition lower_char (c : ascii) : ascii :=
  if is_upper c then ascii_of_N (code c + 32) else c.

Fixpoint lower (s : string) : string :=
  match s with
  | EmptyString => EmptyString
  | String c s' => String (lower_char c) (lower s')
  end.

(** Longest prefix of characters satisfying [p], and the rest. *)
Fixpoint span (p : ascii -> bool) (s : string) : string * string :=
  match s with
  | EmptyString => (EmptyString, EmptyString)
  | String c s' =>
      if p c then let '(a, b) := span p s' in (String c a, b)
      else (EmptyString, s)
  end.

Fixpoint drop (n : nat) (s : string) : string :=
  match n, s with
  | O, _ => s
  | S n', String _ s' => drop n' s'
  | S _, EmptyString => EmptyString
  end.

Fixpoint mem (x : string) (l : list string) : bool :=
  match l with
  | [] => false
  | y :: l' => String.eqb x y || mem x l'
  end.

(** Value of a string of decimal digits. *)
Fixpoint digits_value (acc : Z) (s : string) : Z :=
  match s with
  | EmptyString => acc
  | String c s' => digits_value (10 * acc + (Z.of_N (code c) - 48)) s'
  end.

End Text.

(* ------------------------------------------------------------------ *)
(** ** Insertion-ordered dictionaries with string keys

    A Python [dict] keeps its keys in insertion order; assigning to a key
    that is present replaces the value where it stands, assigning to a new
    key appends it, [del] removes the entry and raises [KeyError] when the
    key is absent. *)

Module Dict.

Definition t (V : Type) : Type := list (string * V).

Definition empty {V} : t V := [].

Fixpoint get {V} (k : string) (d : t V) : option V :=
  match d with
  | [] => None
  | (k', v) :: d' => if String.eqb k k' then Some v else get k d'
  end.

Definition mem {V} (k : string) (d : t V) : bool :=
  match get k d with Some _ => true | None => false end.

Fixpoint set {V} (k : string) (v : V) (d : t V) : t V :=
  match d with
  | [] => [(k, v)]
  | (k', v') :: d' =>
      if String.eqb k k' then (k', v) :: d' else (k', v') :: set k v d'
  end.

Fixpoint remove {V} (k : string) (d : t V) : t V :=
  match d with
  | [] => []
  | (k', v') :: d' =>
      if String.eqb k k' then d' else (k', v') :: remove k d'
  end.

(** [del d[k]]: [None] stands for [KeyError]. *)
Definition del {V} (k : string) (d : t V) : option (t V) :=
  if mem k d then Some (remove k d) else None.

Definition keys {V} (d : t V) : list string := map fst d.

End Dict.

(* ------------------------------------------------------------------ *)
(** ** Python values *)

(** The five NumPy functions the namespace binds. *)
Inductive npfun : Type := np_sqrt | np_exp | np_log | np_sin | np_cos.

#[warnings="-register-all"] Inductive pyval : Type :=
| VInt (z : Z)                       (* int *)
| VFloat (x : float)                 (* float *)
| VNpFloat (x : float)               (* numpy.float64 *)
| VComplex (re im : float)           (* complex *)
| VStr (s : string)                  (* str *)
| VFun (f : npfun)                   (* numpy.ufunc *)
| VDict (d : list (string * pyval)). (* dict *)

(** A real or complex number. *)
Definition is_number (v : pyval) : bool :=
  match v with
  | VInt _ | VFloat _ | VNpFloat _ | VComplex _ _ => true
  | VStr _ | VFun _ | VDict _ => false
  end.

Inductive pyexn : Type :=
| SyntaxError | NameError | TypeError | ZeroDivisionError | ValueError
| KeyError | AttributeError.

(** Outcome of a modelled Python computation: a value, a raised exception,
    or [Unmodelled] when the computation leaves the fragment described. *)
Inductive res (A : Type) : Type :=
| Val (a : A)
| Exn (e : pyexn)
| Unmodelled.
Arguments Val {A} a.
Arguments Exn {A} e.
Arguments Unmodelled {A}.

Definition bind {A B} (r : res A) (k : A -> res B) : res B :=
  match r with
  | Val a => k a
  | Exn e => Exn e
  | Unmodelled => Unmodelled
  end.

Notation "x <- r ;; k" := (bind r (fun x => k))
  (at level 61, r at next level, right associativity).

(* ------------------------------------------------------------------ *)
(** ** Binary64 helpers *)

Module F.

(** Integers of magnitude at most 2^53 are exactly representable. *)
Definition of_Z (z : Z) : option float :=
  if Z.abs z <=? 2 ^ 53 then
    Some (if 0 <=? z then PrimFloat.of_uint63 (Uint63.of_Z z)
          else PrimFloat.opp (PrimFloat.of_uint63 (Uint63.of_Z (- z))))
  else None.

Definition is_zero (x : float) : bool := PrimFloat.eqb x PrimFloat.zero.

Definition is_neg_zero (x : float) : bool :=
  match PrimFloat.classify x with NZero => true | _ => false end.

Definition is_pos_zero (x : float) : bool :=
  match PrimFloat.classify x with PZero => true | _ => false end.

Definition two : float := 0x1p+1%float.
Definition five : float := 0x1.4p+2%float.

End F.

(* ------------------------------------------------------------------ *)
(** ** The constant table *)

Definition np_pi : float := 0x1.921fb54442d18p+1%float.  (* 3.141592653589793 *)
Definition np_e : float := 0x1.5bf0a8b145769p+1%float.   (* 2.718281828459045 *)

(** [(1 + np.sqrt(5)) / 2] *)
Definition golden_ratio : float :=
  PrimFloat.div (PrimFloat.add PrimFloat.one (PrimFloat.sqrt F.five)) F.two.

Definition CONSTANTS : Dict.t pyval :=
  [ ("pi", VFloat np_pi);
    ("e", VFloat np_e);
    ("i", VComplex PrimFloat.zero PrimFloat.one);
    ("j", VComplex PrimFloat.zero PrimFloat.one);
    ("sqrt2", VNpFloat (PrimFloat.sqrt F.two));
    ("sqrt3", VNpFloat (PrimFloat.sqrt 0x1.8p+1%float));
    ("phi", VNpFloat golden_ratio);
    ("inf", VFloat PrimFloat.infinity);
    ("nan", VFloat PrimFloat.nan) ].

(** The dictionary [parse_value] passes to [eval] as local namespace. *)
Definition namespace : Dict.t pyval :=
  [ ("pi", VFloat np_pi);
    ("e", VFloat np_e);
    ("i", VComplex PrimFloat.zero PrimFloat.one);
    ("j", VComplex PrimFloat.zero PrimFloat.one);
    ("sqrt", VFun np_sqrt);
    ("sqrt2", VNpFloat (PrimFloat.sqrt F.two));
    ("sqrt3", VNpFloat (PrimFloat.sqrt 0x1.8p+1%float));
    ("phi", VNpFloat golden_ratio);
    ("inf", VFloat PrimFloat.infinity);
    ("exp", VFun np_exp);
    ("log", VFun np_log);
    ("sin", VFun np_sin);
    ("cos", VFun np_cos) ].

(** The dictionary [{"__builtins__": {}}] passed to [eval] as globals. *)
Definition eval_globals : Dict.t pyval := [ ("__builtins__", VDict []) ].

(** The builtins of the evaluation: the empty dictionary above. *)
Definition eval_builtins : Dict.t pyval := [].

(** Name resolution of [eval(text, globals, locals)]: locals, then globals,
    then the builtins. *)
Definition lookup_name (x : string) : option pyval :=
  match Dict.get x namespace with
  | Some v => Some v
  | None =>
      match Dict.get x eval_globals with
      | Some v => Some v
      | None => Dict.get x eval_builtins
      end
  end.

(* ------------------------------------------------------------------ *)
(** ** The expression fragment of [eval]

    Integer and imaginary literals, plain string literals, names, unary
    [+ -], binary [+ - * / **], parentheses and calls.  Any other input is
    answered [Unmodelled], except for the syntax errors singled out below. *)

Inductive token : Type :=
| TNum (z : Z) | TImag (z : Z) | TName (x : string) | TStr (s : string)
| TPlus | TMinus | TStar | TSlash | TPow | TLPar | TRPar | TComma.

(** The reserved words of Python 3.10+, and [__debug__], which the
    compiler replaces by a constant instead of looking it up. *)
Definition keywords : list string :=
  [ "False"; "None"; "True"; "and"; "as"; "assert"; "async"; "await";
    "break"; "class"; "continue"; "def"; "del"; "elif"; "else"; "except";
    "finally"; "for"; "from"; "global"; "if"; "import"; "in"; "is";
    "lambda"; "nonlocal"; "not"; "or"; "pass"; "raise"; "return"; "try";
    "while"; "with"; "yield"; "__debug__" ].

Definition squote : ascii := ascii_of_N 39.
Definition dquote : ascii := ascii_of_N 34.
Definition backslash : ascii := ascii_of_N 92.
Definition tab : ascii := ascii_of_N 9.

Definition is_quote (c : ascii) : bool :=
  Ascii.eqb c squote || Ascii.eqb c dquote.

(** Characters allowed inside a modelled string literal closed by [q]:
    printable ASCII other than the quote itself and the backslash. *)
Definition is_str_body (q c : ascii) : bool :=
  let n := Text.code c in
  ((32 <=? n) && (n <? 127))%N && negb (Ascii.eqb c q) && negb (Ascii.eqb c backslash).

Definition starts_with (p : ascii -> bool) (s : string) : bool :=
  match s with
  | EmptyString => false
  | String c _ => p c
  end.

(** Token for a run of digits [ds] followed by [rest].  A decimal integer
    literal is [0], zeros only, or starts with a non-zero digit; Python
    limits it to 4300 digits.  A literal with a superfluous leading zero
    that is followed by nothing able to continue a number raises
    [SyntaxError]. *)
Definition lex_number (ds rest : string) : res (token * string) :=
  let canonical :=
    match ds with
    | String "0" ds' => Text.forallb (fun c => Ascii.eqb c "0") ds'
    | _ => true
    end in
  let continues := starts_with (fun c => Text.is_ident_char c || Ascii.eqb c ".") rest in
  if negb (Nat.leb (String.length ds) 4300) then Unmodelled
  else if canonical then
    match rest with
    | String "j" rest' =>
        if starts_with Text.is_ident_char rest' then Unmodelled
        else Val (TImag (Text.digits_value 0 ds), rest')
    | _ =>
        if continues then Unmodelled
        else Val (TNum (Text.digits_value 0 ds), rest)
    end
  else if continues then Unmodelled
  else Exn SyntaxError.

Fixpoint tokenize (fuel : nat) (s : string) : res (list token) :=
  match fuel with
  | O => Unmodelled
  | S fuel' =>
      match s with
      | EmptyString => Val []
      | String c s' =>
          let continue_with (t : token) (rest : string) :=
            ts <- tokenize fuel' rest ;; Val (t :: ts) in
          if Ascii.eqb c " " || Ascii.eqb c tab then tokenize fuel' s'
          else if Text.is_digit c then
            let '(ds, rest) := Text.span Text.is_digit s in
            p <- lex_number ds rest ;; continue_with (fst p) (snd p)
          else if Text.is_ident_start c then
            let '(x, rest) := Text.span Text.is_ident_char s in
            if starts_with is_quote rest then Unmodelled
            else if Text.mem x keywords then Unmodelled
            else continue_with (TName x) rest
          else if is_quote c then
            let '(body, rest) := Text.span (is_str_body c) s' in
            match rest with
            | String c' rest' =>
                if Ascii.eqb c' c && negb (starts_with is_quote rest')
                then continue_with (TStr body) rest'
                else Unmodelled
            | EmptyString => Unmodelled
            end
          else if Ascii.eqb c "+" then continue_with TPlus s'
          else if Ascii.eqb c "-" then continue_with TMinus s'
          else if Ascii.eqb c "(" then continue_with TLPar s'
          else if Ascii.eqb c ")" then continue_with TRPar s'
          else if Ascii.eqb c "," then continue_with TComma s'
          else if Ascii.eqb c "*" then
            match s' with
            | String "*" s'' => continue_with TPow s''
            | _ => continue_with TStar s'
            end
          else if Ascii.eqb c "/" then
            match s' with
            | String "/" _ => Unmodelled
            | _ => continue_with TSlash s'
            end
          else Unmodelled
      end
  end.

Inductive unop : Type := Pos | Neg.
Inductive binop : Type := Add | Sub | Mul | Div | Pow.

#[warnings="-register-all"] Inductive expr : Type :=
| ENum (z : Z)
| EImag (z : Z)
| EStr (s : string)
| EName (x : string)
| EUn (op : unop) (e : expr)
| EBin (op : binop) (e1 e2 : expr)
| ECall (f : expr) (args : list expr).

(** Recursive descent along Python's grammar:
    sum, term, factor, power, primary, atom. *)
Fixpoint parse_sum (fuel : nat) (ts : list token) : option (expr * list token) :=
  match fuel with
  | O => None
  | S fuel' =>
      match parse_term fuel' ts with
      | Some (e, ts') => parse_sum_rest fuel' e ts'
      | None => None
      end
  end
with parse_sum_rest (fuel : nat) (lhs : expr) (ts : list token)
  : option (expr * list token) :=
  match fuel with
  | O => None
  | S fuel' =>
      match ts with
      | TPlus :: ts' =>
          match parse_term fuel' ts' with
          | Some (rhs, ts'') => parse_sum_rest fuel' (EBin Add lhs rhs) ts''
          | None => None
          end
      | TMinus :: ts' =>
          match parse_term fuel' ts' with
          | Some (rhs, ts'') => parse_sum_rest fuel' (EBin Sub lhs rhs) ts''
          | None => None
          end
      | _ => Some (lhs, ts)
      end
  end
with parse_term (fuel : nat) (ts : list token) : option (expr * list token) :=
  match fuel with
  | O => None
  | S fuel' =>
      match parse_factor fuel' ts with
      | Some (e, ts') => parse_term_rest fuel' e ts'
      | None => None
      end
  end
with parse_term_rest (fuel : nat) (lhs : expr) (ts : list token)
  : option (expr * list token) :=
  match fuel with
  | O => None
  | S fuel' =>
      match ts with
      | TStar :: ts' =>
          match parse_factor fuel' ts' with
          | Some (rhs, ts'') => parse_term_rest fuel' (EBin Mul lhs rhs) ts''
          | None => None
          end
      | TSlash :: ts' =>
          match parse_factor fuel' ts' with
          | Some (rhs, ts'') => parse_term_rest fuel' (EBin Div lhs rhs) ts''
          | None => None
          end
      | _ => Some (lhs, ts)
      end
  end
with parse_factor (fuel : nat) (ts : list token) : option (expr * list token) :=
  match fuel with
  | O => None
  | S fuel' =>
      match ts with
      | TPlus :: ts' =>
          match parse_factor fuel' ts' with
          | Some (e, ts'') => Some (EUn Pos e, ts'')
          | None => None
          end
      | TMinus :: ts' =>
          match parse_factor fuel' ts' with
          | Some (e, ts'') => Some (EUn Neg e, ts'')
          | None => None
          end
      | _ =>
          (* power: primary ['**' factor] *)
          match parse_atom fuel' ts with
          | Some (a, ts') =>
              match parse_trailers fuel' a ts' with
              | Some (p, TPow :: ts'') =>
                  match parse_factor fuel' ts'' with
                  | Some (e, ts3) => Some (EBin Pow p e, ts3)
                  | None => None
                  end
              | r => r
              end
          | None => None
          end
      end
  end
with parse_trailers (fuel : nat) (f : expr) (ts : list token)
  : option (expr * list token) :=
  match fuel with
  | O => None
  | S fuel' =>
      match ts with
      | TLPar :: ts' =>
          match parse_args fuel' ts' with
          | Some (args, ts'') => parse_trailers fuel' (ECall f args) ts''
          | None => None
          end
      | _ => Some (f, ts)
      end
  end
with parse_atom (fuel : nat) (ts : list token) : option (expr * list token) :=
  match fuel with
  | O => None
  | S fuel' =>
      match ts with
      | TNum z :: ts' => Some (ENum z, ts')
      | TImag z :: ts' => Some (EImag z, ts')
      | TStr s :: ts' => Some (EStr s, ts')
      | TName x :: ts' => Some (EName x, ts')
      | TLPar :: ts' =>
          match parse_sum fuel' ts' with
          | Some (e, TRPar :: ts'') => Some (e, ts'')
          | _ => None
          end
      | _ => None
      end
  end
with parse_args (fuel : nat) (ts : list token) : option (list expr * list token) :=
  match fuel with
  | O => None
  | S fuel' =>
      match ts with
      | TRPar :: ts' => Some ([], ts')
      | _ =>
          match parse_sum fuel' ts with
          | Some (e, TComma :: ts') =>
              match parse_args fuel' ts' with
              | Some (es, ts'') => Some (e :: es, ts'')
              | None => None
              end
          | Some (e, TRPar :: ts') => Some ([e], ts')
          | _ => None
          end
      end
  end.

Definition is_operand (t : token) : bool :=
  match t with TNum _ | TImag _ | TName _ | TStr _ => true | _ => false end.

(** Two operands side by side with no operator in between, other than two
    string literals (which Python concatenates), are a syntax error. *)
Fixpoint adjacent_operands (ts : list token) : bool :=
  match ts with
  | t1 :: ((t2 :: _) as ts') =>
      (is_operand t1 && is_operand t2
       && negb (match t1, t2 with TStr _, TStr _ => true | _, _ => false end))
      || adjacent_operands ts'
  | _ => false
  end.

(** [eval] compiles the text before it runs it.  The compiler refuses
    parentheses nested beyond 200 and expressions nested beyond its
    recursion limit: texts of more than [max_tokens] tokens are left out.
    It writes a [SyntaxWarning] to standard error for a call whose callee
    is a literal, as in ["2(3)"], and which callees it takes for literals
    depends on its version: a call is kept only when its callee is a name
    or another call. *)
Definition max_tokens : nat := 64.

Definition callee_is_named (f : expr) : bool :=
  match f with
  | EName _ | ECall _ _ => true
  | ENum _ | EImag _ | EStr _ | EUn _ _ | EBin _ _ _ => false
  end.

Fixpoint odd_callee (e : expr) : bool :=
  match e with
  | ENum _ | EImag _ | EStr _ | EName _ => false
  | EUn _ e1 => odd_callee e1
  | EBin _ e1 e2 => odd_callee e1 || odd_callee e2
  | ECall f args =>
      negb (callee_is_named f) || odd_callee f
      || (fix any (es : list expr) : bool :=
            match es with
            | [] => false
            | e1 :: es' => odd_callee e1 || any es'
            end) args
  end.

Definition parse (ts : list token) : res expr :=
  match ts with
  | [] => Exn SyntaxError
  | _ =>
      if negb (Nat.leb (List.length ts) max_tokens) then Unmodelled
      else if adjacent_operands ts then Exn SyntaxError
      else
        match parse_sum (8 * List.length ts + 8) ts with
        | Some (e, []) => if odd_callee e then Unmodelled else Val e
        | _ => Unmodelled
        end
  end.

(* ------------------------------------------------------------------ *)
(** ** Arithmetic on the numeric tower *)

Inductive num : Type :=
| NI (z : Z) | NF (x : float) | NN (x : float) | NC (re im : float).

Definition num_of (v : pyval) : option num :=
  match v with
  | VInt z => Some (NI z)
  | VFloat x => Some (NF x)
  | VNpFloat x => Some (NN x)
  | VComplex re im => Some (NC re im)
  | VStr _ | VFun _ | VDict _ => None
  end.

(** The operand as a binary64 number, when it is real and converts
    exactly. *)
Definition to_float (n : num) : option float :=
  match n with
  | NI z => F.of_Z z
  | NF x | NN x => Some x
  | NC _ _ => None
  end.

Definition is_np (n : num) : bool :=
  match n with NN _ => true | _ => false end.

(** An [int] result.  Python prints an [int] of up to 4300 digits and
    refuses to print a longer one; results of [2 ^ 14284] (a number of 4300
    digits) and beyond are left out. *)
Definition int_result (z : Z) : res pyval :=
  if Z.log2 (Z.abs z) <? 14284 then Val (VInt z) else Unmodelled.

(** [int] with [int].  True division is correctly rounded; a power with a
    negative exponent is a float power and is left out, as are exponents
    above 4096. *)
Definition arith_int (op : binop) (a b : Z) : res pyval :=
  match op with
  | Add => int_result (a + b)
  | Sub => int_result (a - b)
  | Mul => int_result (a * b)
  | Div =>
      if b =? 0 then Exn ZeroDivisionError
      else match F.of_Z a, F.of_Z b with
           | Some x, Some y => Val (VFloat (PrimFloat.div x y))
           | _, _ => Unmodelled
           end
  | Pow =>
      if b <? 0 then (if a =? 0 then Exn ZeroDivisionError else Unmodelled)
      else if b <=? 4096 then int_result (a ^ b)
      else Unmodelled
  end.

(** [float] with [float] or [int]: division by zero raises. *)
Definition arith_float (op : binop) (x y : float) : res pyval :=
  match op with
  | Add => Val (VFloat (PrimFloat.add x y))
  | Sub => Val (VFloat (PrimFloat.sub x y))
  | Mul => Val (VFloat (PrimFloat.mul x y))
  | Div =>
      if F.is_zero y then Exn ZeroDivisionError
      else Val (VFloat (PrimFloat.div x y))
  | Pow => Unmodelled
  end.

(** An operand is a [numpy.float64]: IEEE arithmetic, no exception.
    NumPy writes a [RuntimeWarning] to standard error when the operation
    divides by zero, overflows, or is invalid (a NaN from operands that
    are none); these cases are left out. *)
Definition np_result (x y r : float) : res pyval :=
  if PrimFloat.is_nan r && negb (PrimFloat.is_nan x || PrimFloat.is_nan y)
  then Unmodelled
  else if PrimFloat.is_infinity r && PrimFloat.is_finite x && PrimFloat.is_finite y
  then Unmodelled
  else Val (VNpFloat r).

Definition arith_np (op : binop) (x y : float) : res pyval :=
  match op with
  | Add => np_result x y (PrimFloat.add x y)
  | Sub => np_result x y (PrimFloat.sub x y)
  | Mul => np_result x y (PrimFloat.mul x y)
  | Div =>
      if F.is_zero y then Unmodelled
      else np_result x y (PrimFloat.div x y)
  | Pow => Unmodelled
  end.

Definition arith_complex (op : binop) (a b c d : float) : res pyval :=
  match op with
  | Add => Val (VComplex (PrimFloat.add a c) (PrimFloat.add b d))
  | Sub => Val (VComplex (PrimFloat.sub a c) (PrimFloat.sub b d))
  | Mul | Div | Pow => Unmodelled
  end.

(** [complex] with a real right operand.  Python 3.14 changed mixed
    arithmetic on the sign of a zero imaginary part; the cases where the
    versions disagree are left out. *)
Definition arith_complex_real (op : binop) (a b x : float) : res pyval :=
  match op with
  | Add =>
      if F.is_neg_zero b then Unmodelled
      else Val (VComplex (PrimFloat.add a x) b)
  | Sub => Val (VComplex (PrimFloat.sub a x) b)
  | Mul | Div | Pow => Unmodelled
  end.

(** A real left operand with [complex]. *)
Definition arith_real_complex (op : binop) (x c d : float) : res pyval :=
  match op with
  | Add =>
      if F.is_neg_zero d then Unmodelled
      else Val (VComplex (PrimFloat.add x c) d)
  | Sub =>
      if F.is_pos_zero d then Unmodelled
      else Val (VComplex (PrimFloat.sub x c) (PrimFloat.opp d))
  | Mul | Div | Pow => Unmodelled
  end.

Definition lift {A} (o : option A) : res A :=
  match o with Some a => Val a | None => Unmodelled end.

Definition arith (op : binop) (m n : num) : res pyval :=
  match m, n with
  | NI a, NI b => arith_int op a b
  | NC a b, NC c d => arith_complex op a b c d
  | NC _ _, NN _ | NN _, NC _ _ => Unmodelled
  | NC a b, _ => x <- lift (to_float n) ;; arith_complex_real op a b x
  | _, NC c d => x <- lift (to_float m) ;; arith_real_complex op x c d
  | _, _ =>
      x <- lift (to_float m) ;;
      y <- lift (to_float n) ;;
      if is_np m || is_np n then arith_np op x y else arith_float op x y
  end.

Definition eval_binop (op : binop) (v w : pyval) : res pyval :=
  match num_of v, num_of w with
  | Some m, Some n => arith op m n
  | _, _ => Unmodelled
  end.

Definition eval_unop (op : unop) (v : pyval) : res pyval :=
  match op, v with
  | Pos, (VInt _ | VFloat _ | VNpFloat _ | VComplex _ _) => Val v
  | Neg, VInt z => Val (VInt (- z))
  | Neg, VFloat x => Val (VFloat (PrimFloat.opp x))
  | Neg, VNpFloat x => Val (VNpFloat (PrimFloat.opp x))
  | Neg, VComplex re im => Val (VComplex (PrimFloat.opp re) (PrimFloat.opp im))
  | _, _ => Unmodelled
  end.

(** Calls of the NumPy functions: [np.sqrt] of a real scalar is the
    correctly rounded square root.  Below zero it is a NaN and NumPy
    writes a [RuntimeWarning] to standard error: this case is left out.
    The transcendental functions have no counterpart here. *)
Definition call_npfun (f : npfun) (args : list pyval) : res pyval :=
  match f, args with
  | np_sqrt, [v] =>
      match num_of v with
      | Some (NC _ _) | None => Unmodelled
      | Some n =>
          x <- lift (to_float n) ;;
          if PrimFloat.ltb x PrimFloat.zero then Unmodelled
          else Val (VNpFloat (PrimFloat.sqrt x))
      end
  | _, _ => Unmodelled
  end.

(** Calling: only function objects are callable. *)
Definition call (f : pyval) (args : list pyval) : res pyval :=
  match f with
  | VFun g => call_npfun g args
  | VInt _ | VFloat _ | VNpFloat _ | VComplex _ _ | VStr _ | VDict _ =>
      Exn TypeError
  end.

(** Evaluation, operands left to right, the callee before its arguments. *)
Fixpoint eval_expr (e : expr) : res pyval :=
  match e with
  | ENum z => Val (VInt z)
  | EImag z => x <- lift (F.of_Z z) ;; Val (VComplex PrimFloat.zero x)
  | EStr s => Val (VStr s)
  | EName x =>
      match lookup_name x with
      | Some v => Val v
      | None => Exn NameError
      end
  | EUn op e1 => v <- eval_expr e1 ;; eval_unop op v
  | EBin op e1 e2 =>
      v <- eval_expr e1 ;; w <- eval_expr e2 ;; eval_binop op v w
  | ECall f args =>
      vf <- eval_expr f ;;
      vs <- (fix eval_args (es : list expr) : res (list pyval) :=
               match es with
               | [] => Val []
               | e1 :: es' =>
                   v <- eval_expr e1 ;; vs <- eval_args es' ;; Val (v :: vs)
               end) args ;;
      call vf vs
  end.

(** [eval(text, {"__builtins__": {}}, namespace)] *)
Definition py_eval (text : string) : res pyval :=
  ts <- tokenize (S (String.length text)) text ;;
  e <- parse ts ;;
  eval_expr e.

(* ------------------------------------------------------------------ *)
(** ** [float(text)] on stripped, lower-case ASCII text *)

Inductive float_res : Type :=
| FVal (x : float)
| FError          (* ValueError *)
| FUnmodelled.

Definition is_float_char (c : ascii) : bool :=
  Text.is_digit c || Text.mem (String c EmptyString) ["."; "e"; "_"; "+"; "-"].

Definition py_float (text : string) : float_res :=
  let '(negative, body) :=
    match text with
    | String "-" s => (true, s)
    | String "+" s => (false, s)
    | _ => (false, text)
    end in
  let signed (x : float) := if negative then PrimFloat.opp x else x in
  if Text.mem body ["inf"; "infinity"] then FVal (signed PrimFloat.infinity)
  else if String.eqb body "nan" then FVal PrimFloat.nan
  else
    match text with
    | EmptyString => FError
    | _ =>
        if negb (Text.forallb is_float_char text) then FError
        else if Text.forallb Text.is_digit body && negb (String.eqb body "") then
          match F.of_Z (Text.digits_value 0 body) with
          | Some x => FVal (signed x)
          | None => FUnmodelled
          end
        else FUnmodelled
    end.

(* ------------------------------------------------------------------ *)
(** ** The value parser *)

(** [str(text).strip().lower()] *)
Definition normalize (text : string) : string := Text.lower (Text.strip text).

(** [parse_value(text)]; [None] when the text is not ASCII or its
    evaluation leaves the modelled fragment. *)
Definition parse_value (text : string) : option pyval :=
  if negb (Text.is_ascii text) then None
  else
    let text := normalize text in
    (* Direct constant lookup *)
    match Dict.get text CONSTANTS with
    | Some v => Some v
    | None =>
        (* Try to evaluate as expression with constants *)
        match py_eval text with
        | Val result => Some result
        | Unmodelled => None
        | Exn _ =>
            (* Try as plain number *)
            match py_float text with
            | FVal x => Some (VFloat x)
            | FUnmodelled => None
            | FError =>
                (* Return as string if nothing works *)
                Some (VStr text)
            end
        end
    end.

(** The expression [eval] compiles the text to, when it is in the fragment. *)
Definition parse_expr (text : string) : res expr :=
  ts <- tokenize (S (String.length text)) text ;; parse ts.

(** Expressions made of numeric literals, the numeric constants of the
    namespace, signs and binary operators only. *)
Definition numeric_names : list string :=
  [ "pi"; "e"; "i"; "j"; "sqrt2"; "sqrt3"; "phi"; "inf" ].

Definition function_names : list string :=
  [ "sqrt"; "exp"; "log"; "sin"; "cos" ].

Fixpoint pure_arith (e : expr) : bool :=
  match e with
  | ENum _ | EImag _ => true
  | EName x => Text.mem x numeric_names
  | EUn _ e1 => pure_arith e1
  | EBin _ e1 e2 => pure_arith e1 && pure_arith e2
  | EStr _ | ECall _ _ => false
  end.

(* ------------------------------------------------------------------ *)
(** ** The value parser over the builtins it calls

    [parse_value] calls four builtins: [str.strip], [str.lower], [eval]
    and [float].  [parse_value_with] is the function with these as
    parameters: it takes any text and returns any Python object.  A call
    of [eval] or of [float] returns an object or raises; the function
    catches whatever is raised, so that the exception itself plays no part.
    A call that does not return is not described. *)

Inductive outcome (A : Type) : Type :=
| Returned (a : A)
| Raised.
Arguments Returned {A} a.
Arguments Raised {A}.

Record builtins (obj : Type) : Type := mkBuiltins {
  str_strip : string -> string;              (* text.strip() *)
  str_lower : string -> string;              (* text.lower() *)
  eval_in_namespace : string -> outcome obj; (* eval(text, {"__builtins__": {}}, namespace) *)
  float_of : string -> outcome obj;          (* float(text) *)
  obj_of : pyval -> obj                      (* the object of a constant or of a string *)
}.
Arguments str_strip {obj} b _.
Arguments str_lower {obj} b _.
Arguments eval_in_namespace {obj} b _.
Arguments float_of {obj} b _.
Arguments obj_of {obj} b _.

(** [parse_value(text)] *)
Definition parse_value_with {obj} (B : builtins obj) (text : string) : obj :=
  let text := str_lower B (str_strip B text) in
  (* Direct constant lookup *)
  match Dict.get text CONSTANTS with
  | Some v => obj_of B v
  | None =>
      (* Try to evaluate as expression with constants *)
      match eval_in_namespace B text with
      | Returned result => result
      | Raised =>
          (* Try as plain number *)
          match float_of B text with
          | Returned x => x
          | Raised =>
              (* Return as string if nothing works *)
              obj_of B (VStr text)
          end
      end
  end.

(** The builtins as the fragment describes them.  Where the fragment does
    not answer they are made to raise: they stand for Python's on the
    texts of the fragment only. *)
Definition fragment_builtins : builtins pyval :=
  mkBuiltins pyval Text.strip Text.lower
    (fun text =>
       match py_eval text with
       | Val v => Returned v
       | Exn _ | Unmodelled => Raised
       end)
    (fun text =>
       match py_float text with
       | FVal x => Returned (VFloat x)
       | FError | FUnmodelled => Raised
       end)
    (fun v => v).

(** Builtins that behave as the fragment says wherever it answers. *)
Record agree {obj} (B : builtins obj) : Prop := mkAgree {
  agree_strip : forall text,
    Text.is_ascii text = true -> str_strip B text = Text.strip text;
  agree_lower : forall text,
    Text.is_ascii text = true -> str_lower B text = Text.lower text;
  agree_eval_val : forall text v,
    py_eval text = Val v -> eval_in_namespace B text = Returned (obj_of B v);
  agree_eval_exn : forall text e,
    py_eval text = Exn e -> eval_in_namespace B text = Raised;
  agree_float_val : forall text x,
    py_float text = FVal x -> float_of B text = Returned (obj_of B (VFloat x));
  agree_float_exn : forall text,
    py_float text = FError -> float_of B text = Raised
}.


(* ------------------------------------------------------------------ *)
(** ** The form controller *)

(** [str(i)] of an [int], as in the f-string [f'var{i}']. *)
Definition str_of_int (i : Z) : string := NilZero.string_of_int (Z.to_int i).

(** [int(s)] on a plain decimal numeral with an optional minus sign; the
    other spellings [int] accepts are left out. *)
Definition int_of_str (s : string) : res Z :=
  match NilZero.int_of_string s with
  | Some d => Val (Z.of_int d)
  | None => Unmodelled
  end.

(** [range(a, b)] *)
Definition py_range (a b : Z) : list Z :=
  map (fun k => a + Z.of_nat k) (seq 0 (Z.to_nat (b - a))).

(** A [widgets.Text]: its current text and its placeholder (layout and
    style are rendering only). *)
Record Text : Type := mkText { value : string; placeholder : string }.

(** The content of [status], without its markup. *)
Inductive status_msg : Type :=
| Ready | Running | Complete | Error | Printed | Updated (n : Z).

(** One entry of the dictionary [get_variables] returns. *)
Record var_entry : Type := mkEntry {
  entry_value : option pyval;   (* parse_value(raw), see [parse_value] *)
  entry_raw : string;
  entry_name : string
}.

(** An exception caught by the run handler: one raised by the controller's
    own code, or one raised by the callback, with its traceback text. *)
Inductive exc_info : Type :=
| ExcPython (e : pyexn)
| ExcCallback (trace : string).

(** What is written to the output widget. *)
Inductive line : Type :=
| LText (s : string)
| LVar (name : string) (v : option pyval) (raw : string)
| LTraceback (e : exc_info).

(** The output widget: the lines shown, and whether a
    [clear_output(wait=True)] is waiting for the next line. *)
Record Output : Type := mkOutput { shown : list line; clear_pending : bool }.

Definition clear_output_wait (o : Output) : Output :=
  mkOutput (shown o) true.

Definition emit (l : line) (o : Output) : Output :=
  if clear_pending o then mkOutput [l] false
  else mkOutput (shown o ++ [l])%list false.

Definition emit_all (ls : list line) (o : Output) : Output :=
  fold_left (fun o l => emit l o) ls o.

(** What a callback raised, with its traceback text: an [Exception], which
    [except Exception] catches, or another [BaseException] ([SystemExit],
    [KeyboardInterrupt], [GeneratorExit]), which it does not. *)
Inductive raised : Type :=
| RaisedException (trace : string)
| RaisedBaseException (trace : string).

Definition trace_of (r : raised) : string :=
  match r with RaisedException t | RaisedBaseException t => t end.

(** The callback: a function of the collected variables that prints some
    lines and then returns or raises.  It gets the collected dictionary
    only: a callback that reaches the controller by another way and
    changes it is not described. *)
Record cb_result : Type := mkCb {
  cb_printed : list string;
  cb_raised : option raised
}.

Definition Callback : Type := Dict.t var_entry -> cb_result.

(** A row of the variable container. *)
Inductive row : Type := col_header | var_row (i : Z).

(** The controller.  [output], [var_container] and [n_input] are [None]
    and [status] does not exist until [create_interface] has run. *)
Record VariableInterface : Type := mkVI {
  n_variables : Z;
  title : string;
  callback : option Callback;
  value_widgets : Dict.t Text;
  name_widgets : Dict.t Text;
  output : option Output;
  var_container : option (list row);
  n_input : option Z;
  status : option status_msg
}.

Definition with_widgets (vw nw : Dict.t Text) (st : VariableInterface) :=
  mkVI (n_variables st) (title st) (callback st) vw nw
       (output st) (var_container st) (n_input st) (status st).

Definition with_n_variables (n : Z) (st : VariableInterface) :=
  mkVI n (title st) (callback st) (value_widgets st) (name_widgets st)
       (output st) (var_container st) (n_input st) (status st).

Definition with_n_input (n : Z) (st : VariableInterface) :=
  mkVI (n_variables st) (title st) (callback st) (value_widgets st)
       (name_widgets st) (output st) (var_container st) (Some n) (status st).

Definition with_status (s : status_msg) (st : VariableInterface) :=
  mkVI (n_variables st) (title st) (callback st) (value_widgets st)
       (name_widgets st) (output st) (var_container st) (n_input st) (Some s).

Definition with_output (o : Output) (st : VariableInterface) :=
  mkVI (n_variables st) (title st) (callback st) (value_widgets st)
       (name_widgets st) (Some o) (var_container st) (n_input st) (status st).

Definition with_var_container (rows : list row) (st : VariableInterface) :=
  mkVI (n_variables st) (title st) (callback st) (value_widgets st)
       (name_widgets st) (output st) (Some rows) (n_input st) (status st).

(** [VariableInterface.__init__] *)
Definition __init__ (n_variables : Z) (title : string)
    (callback : option Callback) : VariableInterface :=
  mkVI n_variables title callback Dict.empty Dict.empty None None None None.

(** The key [f'var{i}'] of slot [i]. *)
Definition key_of (i : Z) : string := "var" ++ str_of_int i.

Definition value_placeholder : string := "number or pi, e, i...".

Definition name_placeholder (i : Z) : string :=
  "Name for variable " ++ str_of_int i.

(** One turn of the loop of [_build_variable_rows] on the two
    dictionaries. *)
Definition build_row (i : Z) (ws : Dict.t Text * Dict.t Text)
  : Dict.t Text * Dict.t Text :=
  let '(vw, nw) := ws in
  let key := key_of i in
  (* Preserve existing value or create new *)
  let old_val :=
    match Dict.get key vw with
    | Some w => value w
    | None => "0"
    end in
  let value_widget := mkText old_val value_placeholder in
  (* Preserve existing name or create new *)
  let old_name :=
    match Dict.get key nw with
    | Some w => value w
    | None => "var" ++ str_of_int i
    end in
  let name_widget := mkText old_name (name_placeholder i) in
  (Dict.set key value_widget vw, Dict.set key name_widget nw).

(** [[k for k in value_widgets if int(k[3:]) > n]] *)
Fixpoint keys_to_remove (n : Z) (ks : list string) : res (list string) :=
  match ks with
  | [] => Val []
  | k :: ks' =>
      i <- int_of_str (Text.drop 3 k) ;;
      rest <- keys_to_remove n ks' ;;
      Val (if i >? n then k :: rest else rest)
  end.

(** [for k in keys: del value_widgets[k]; del name_widgets[k]] *)
Fixpoint del_keys (ks : list string) (ws : Dict.t Text * Dict.t Text)
  : res (Dict.t Text * Dict.t Text) :=
  match ks with
  | [] => Val ws
  | k :: ks' =>
      match Dict.del k (fst ws) with
      | None => Exn KeyError
      | Some vw =>
          match Dict.del k (snd ws) with
          | None => Exn KeyError
          | Some nw => del_keys ks' (vw, nw)
          end
      end
  end.

(** [_build_variable_rows]: build or rebuild variable input rows. *)
Definition _build_variable_rows (st : VariableInterface)
  : res VariableInterface :=
  let indices := py_range 1 (n_variables st + 1) in
  let rows := (col_header :: map var_row indices)%list in
  let ws :=
    fold_left (fun ws i => build_row i ws) indices
      (value_widgets st, name_widgets st) in
  (* Remove old widgets beyond current count *)
  ks <- keys_to_remove (n_variables st) (Dict.keys (fst ws)) ;;
  ws' <- del_keys ks ws ;;
  match var_container st with
  | None => Exn AttributeError
  | Some _ => Val (with_var_container rows (with_widgets (fst ws') (snd ws') st))
  end.

(** [_update_variable_count]: handle update count button click. *)
Definition _update_variable_count (st : VariableInterface)
  : res VariableInterface :=
  match n_input st with
  | None => Exn AttributeError
  | Some new_n =>
      let '(new_n, st) :=
        if new_n <? 1 then (1, with_n_input 1 st) else (new_n, st) in
      let '(new_n, st) :=
        if new_n >? 50 then (50, with_n_input 50 st) else (new_n, st) in
      st <- _build_variable_rows (with_n_variables new_n st) ;;
      match status st with
      | None => Exn AttributeError
      | Some _ => Val (with_status (Updated new_n) st)
      end
  end.

(** [get_variables]: current values as dict. *)
Definition get_variables (st : VariableInterface) : res (Dict.t var_entry) :=
  fold_left
    (fun acc kw =>
       result <- acc ;;
       let '(key, w) := kw in
       let raw_value := value w in
       let parsed_value := parse_value raw_value in
       match Dict.get key (name_widgets st) with
       | None => Exn KeyError
       | Some nw =>
           Val (Dict.set key (mkEntry parsed_value raw_value (value nw)) result)
       end)
    (value_widgets st) (Val Dict.empty).

(** [get_values_by_name]; an entry is what [parse_value] gives on the raw
    text. *)
Definition get_values_by_name (st : VariableInterface)
  : res (Dict.t (option pyval)) :=
  fold_left
    (fun acc kw =>
       result <- acc ;;
       let '(key, w) := kw in
       match Dict.get key (name_widgets st) with
       | None => Exn KeyError
       | Some nw =>
           let name := value nw in
           let raw_value := value w in
           Val (Dict.set name (parse_value raw_value) result)
       end)
    (value_widgets st) (Val Dict.empty).

Definition rule : string := String.concat "" (repeat "=" 50).

Definition print_all (ss : list string) (o : Output) : Output :=
  emit_all (map LText ss) o.

(** [_on_run]: the handler of the run button.

    The body runs inside [with self.output:].  An exception that leaves
    the body reaches the output widget, which in a notebook kernel shows
    the traceback in the widget and suppresses the exception: the handler
    then ends, with the status it had reached.  This is the case of a
    callback exit that [except Exception] does not catch, and of an error
    of the listing, which has no [try] around it.

    What [eval] writes to standard error while the variables are
    collected, and an [int] too long to be printed, occur only for value
    texts outside the fragment of [parse_value] (entries with the value
    [None] here).  On a form with such a text the count and the slots
    below are what the code leaves; the lines of the output, and the status
    after the listing, are described for forms without such a text. *)
Definition _on_run (st : VariableInterface) : res VariableInterface :=
  match status st, output st with
  | Some _, Some out =>
      let st := with_status Running st in
      let out := clear_output_wait out in
      match callback st with
      | Some cb =>
          match get_variables st with
          | Val vars =>
              let r := cb vars in
              let out := print_all (cb_printed r) out in
              match cb_raised r with
              | None => Val (with_status Complete (with_output out st))
              | Some (RaisedException trace) =>
                  Val (with_output (emit (LTraceback (ExcCallback trace)) out)
                         (with_status Error st))
              | Some (RaisedBaseException trace) =>
                  Val (with_output (emit (LTraceback (ExcCallback trace)) out) st)
              end
          | Exn e =>
              Val (with_output (emit (LTraceback (ExcPython e)) out)
                     (with_status Error st))
          | Unmodelled => Unmodelled
          end
      | None =>
          let out := print_all [rule; "VARIABLES"; rule] out in
          match get_variables st with
          | Val vars =>
              let out :=
                emit_all
                  (map (fun kd => LVar (entry_name (snd kd)) (entry_value (snd kd))
                                    (entry_raw (snd kd))) vars) out in
              let out := print_all [rule] out in
              Val (with_status Printed (with_output out st))
          | Exn e => Val (with_output (emit (LTraceback (ExcPython e)) out) st)
          | Unmodelled => Unmodelled
          end
      end
  | _, _ => Exn AttributeError
  end.

(** [create_interface]; without the notebook modules it only reports the
    missing environment and returns the object as it is. *)
Definition create_interface (JUPYTER_MODE : bool) (st : VariableInterface)
  : res VariableInterface :=
  if negb JUPYTER_MODE then Val st
  else
    (* Number of variables control *)
    let st := with_n_input (n_variables st) st in
    (* Variable rows container *)
    st <- _build_variable_rows (with_var_container [] st) ;;
    (* Status, output area *)
    Val (with_output (mkOutput [] false) (with_status Ready st)).

(** [create_variable_interface]: create and display the interface. *)
Definition create_variable_interface (JUPYTER_MODE : bool) (n_variables : Z)
    (title : string) (callback : option Callback) : res VariableInterface :=
  create_interface JUPYTER_MODE (__init__ n_variables title callback).

(** *** The user's actions on the displayed form *)

Definition edit_text (key : string) (s : string) (d : Dict.t Text)
  : Dict.t Text :=
  match Dict.get key d with
  | Some w => Dict.set key (mkText s (placeholder w)) d
  | None => d
  end.

Inductive event : Type :=
| EditValue (key : string) (s : string)   (* typing in a value box *)
| EditName (key : string) (s : string)    (* typing in a name box *)
| EditCount (n : Z)                       (* typing in the count box *)
| ClickUpdate                             (* the update count button *)
| ClickRun.                               (* the run button *)

Definition handle (ev : event) (st : VariableInterface)
  : res VariableInterface :=
  match ev with
  | EditValue key s =>
      Val (with_widgets (edit_text key s (value_widgets st)) (name_widgets st) st)
  | EditName key s =>
      Val (with_widgets (value_widgets st) (edit_text key s (name_widgets st)) st)
  | EditCount n =>
      match n_input st with
      | Some _ => Val (with_n_input n st)
      | None => Exn AttributeError
      end
  | ClickUpdate => _update_variable_count st
  | ClickRun => _on_run st
  end.

(** Setting the count: the number is typed in the count box and the update
    button is clicked. *)
Definition setCount (n : Z) (st : VariableInterface) : res VariableInterface :=
  st <- handle (EditCount n) st ;; handle ClickUpdate st.

(** The states of a displayed form: created in the notebook, then driven
    by the user's actions. *)
Inductive reachable : VariableInterface -> Prop :=
| reach_create n title cb st :
    create_variable_interface true n title cb = Val st -> reachable st
| reach_step st ev st' :
    reachable st -> handle ev st = Val st' -> reachable st'.

(** The keys [var1 .. varn], in this order. *)
Definition var_keys (n : Z) : list string := map key_of (py_range 1 (n + 1)).

Definition clamp (n : Z) : Z := if n <? 1 then 1 else if n >? 50 then 50 else n.

(** The loop of [_build_variable_rows] over a list of indices. *)
Definition build_loop (l : list Z) (ws : Dict.t Text * Dict.t Text)
  : Dict.t Text * Dict.t Text :=
  fold_left (fun ws i => build_row i ws) l ws.

(** The keys [var1 .. varm] for a natural number [m]. *)
Definition vk (m : nat) : list string :=
  map (fun k => key_of (Z.of_nat k)) (seq 1 m).

(** The value and name widgets a fresh slot [i] gets. *)
Definition default_value_widget : Text := mkText "0" value_placeholder.

Definition default_name_widget (i : Z) : Text :=
  mkText ("var" ++ str_of_int i) (name_placeholder i).

(** The state of a displayed form is well formed: both dictionaries hold
    exactly the keys [var1 .. varn] in this order, every widget carries the
    placeholder it was created with, and the widgets of the interface
    exist. *)
Record Inv (st : VariableInterface) : Prop := mkInv {
  inv_value_keys : Dict.keys (value_widgets st) = var_keys (n_variables st);
  inv_name_keys : Dict.keys (name_widgets st) = var_keys (n_variables st);
  inv_value_ph : forall i w,
    Dict.get (key_of i) (value_widgets st) = Some w ->
    placeholder w = value_placeholder;
  inv_name_ph : forall i w,
    Dict.get (key_of i) (name_widgets st) = Some w ->
    placeholder w = name_placeholder i;
  inv_n_input : n_input st <> None;
  inv_var_container : var_container st <> None;
  inv_output : output st <> None;
  inv_status : status st <> None
}.

(** The text a slot holds, or the text a fresh slot would get. *)
Definition value_text_or_default (i : Z) (st : VariableInterface) : string :=
  match Dict.get (key_of i) (value_widgets st) with
  | Some w => value w
  | None => "0"
  end.

Definition name_text_or_default (i : Z) (st : VariableInterface) : string :=
  match Dict.get (key_of i) (name_widgets st) with
  | Some w => value w
  | None => "var" ++ str_of_int i
  end.

(** The name text stored under a key, the key itself when there is none
    (the default name of slot [i] is its key [var<i>]). *)
Definition name_text_or_default_key (k : string) (st : VariableInterface)
  : string :=
  match Dict.get k (name_widgets st) with
  | Some w => value w
  | None => k
  end.

(** [st'] is the form [st] rebuilt for the count [n]. *)
Record rebuilt (st : VariableInterface) (n : Z) (st' : VariableInterface)
  : Prop := mkRebuilt {
  rb_count : n_variables st' = n;
  rb_n_input : n_input st' = Some n;
  rb_status : status st' = Some (Updated n);
  rb_title : title st' = title st;
  rb_callback : callback st' = callback st;
  rb_output : output st' = output st;
  rb_var_container :
    var_container st' = Some (col_header :: map var_row (py_range 1 (n + 1)))%list;
  rb_value_keys : Dict.keys (value_widgets st') = var_keys n;
  rb_name_keys : Dict.keys (name_widgets st') = var_keys n;
  rb_slots : forall i, 1 <= i <= n ->
    Dict.get (key_of i) (value_widgets st') =
      Some (mkText (value_text_or_default i st) value_placeholder)
    /\ Dict.get (key_of i) (name_widgets st') =
      Some (mkText (name_text_or_default i st) (name_placeholder i))
}.

(** The end of [_update_variable_count], once the count is clamped. *)
Definition finish_update (n : Z) (st : VariableInterface)
  : res VariableInterface :=
  st <- _build_variable_rows (with_n_variables n st) ;;
  match status st with
  | None => Exn AttributeError
  | Some _ => Val (with_status (Updated n) st)
  end.

(** Two states hold the same form: they agree on everything but the
    status and the output. *)
Record same_form (st st' : VariableInterface) : Prop := mkSameForm {
  sf_count : n_variables st' = n_variables st;
  sf_title : title st' = title st;
  sf_callback : callback st' = callback st;
  sf_values : value_widgets st' = value_widgets st;
  sf_names : name_widgets st' = name_widgets st;
  sf_n_input : n_input st' = n_input st;
  sf_var_container : var_container st' = var_container st
}.

(** Running a list of events, one after the other. *)
Fixpoint run_events (evs : list event) (st : VariableInterface)
  : res VariableInterface :=
  match evs with
  | [] => Val st
  | ev :: evs' => st' <- handle ev st ;; run_events evs' st'
  end.

(** What a run writes to the output widget, and the status it ends in,
    for the callback registered and the variables collected. *)
Definition run_lines (cb : option Callback) (vars : Dict.t var_entry)
  : list line :=
  match cb with
  | Some f =>
      (map LText (cb_printed (f vars)) ++
       match cb_raised (f vars) with
       | Some r => [LTraceback (ExcCallback (trace_of r))]
       | None => []
       end)%list
  | None =>
      (map LText [rule; "VARIABLES"; rule] ++
       map (fun kd => LVar (entry_name (snd kd)) (entry_value (snd kd))
                        (entry_raw (snd kd))) vars ++
       map LText [rule])%list
  end.

Definition run_status (cb : option Callback) (vars : Dict.t var_entry)
  : status_msg :=
  match cb with
  | Some f =>
      match cb_raised (f vars) with
      | Some (RaisedException _) => Error
      | Some (RaisedBaseException _) => Running
      | None => Complete
      end
  | None => Printed
  end.

(** The events that are no click on the update button. *)
Definition is_click (ev : event) : bool :=
  match ev with
  | ClickUpdate | ClickRun => true
  | EditValue _ _ | EditName _ _ | EditCount _ => false
  end.

(** The (name, raw text) pairs of the slots, in the order of the value
    dictionary. *)
Definition slot_texts (st : VariableInterface) : list (string * string) :=
  map (fun kw => (name_text_or_default_key (fst kw) st, value (snd kw)))
      (value_widgets st).

(** The dictionary [get_values_by_name] builds from the (name, raw text)
    pairs, one assignment [result[name] = parse_value(raw)] after the
    other. *)
Definition collect_by_name (l : list (string * string))
    (acc : Dict.t (option pyval)) : Dict.t (option pyval) :=
  fold_left (fun r p => Dict.set (fst p) (parse_value (snd p)) r) l acc.

(** Slots exist for exactly the indices [1 .. n], in both dictionaries. *)
Definition slots_exact (st : VariableInterface) : Prop :=
  Dict.keys (value_widgets st) = var_keys (n_variables st)
  /\ Dict.keys (name_widgets st) = var_keys (n_variables st).

(** *** Example forms *)

Definition the_state (r : res VariableInterface) : VariableInterface :=
  match r with
  | Val st => st
  | Exn _ | Unmodelled => __init__ 0 "" None
  end.

(** The form of three variables, as created by default. *)
Definition form3 : VariableInterface :=
  the_state (create_variable_interface true 3 "Parameter Input" None).

(** The same form after the user named slot 2 [mass] and gave it [5]. *)
Definition form3_mass : VariableInterface :=
  the_state (run_events [EditValue "var2" "5"; EditName "var2" "mass"] form3).

Definition form2 : VariableInterface :=
  the_state (create_variable_interface true 2 "Parameter Input" None).

(** A form of two variables both named [x]. *)
Definition form2_xx : VariableInterface :=
  the_state
    (run_events [EditName "var1" "x"; EditValue "var1" "1";
                 EditName "var2" "x"; EditValue "var2" "2*pi"] form2).

(** A callback that prints a line and raises. *)
Definition raising_callback : Callback :=
  fun _ => mkCb ["working"] (Some (RaisedException "ValueError: bad input")).

(** A callback that leaves by [sys.exit()]. *)
Definition exiting_callback : Callback :=
  fun _ => mkCb [] (Some (RaisedBaseException "SystemExit")).

Definition form2_raising : VariableInterface :=
  the_state
    (create_variable_interface true 2 "Parameter Input" (Some raising_callback)).

Definition form2_exiting : VariableInterface :=
  the_state
    (create_variable_interface true 2 "Parameter Input" (Some exiting_callback)).

(** The variables a form collects, for the examples. *)
Definition the_vars (st : VariableInterface) : Dict.t var_entry :=
  match get_variables st with
  | Val vars => vars
  | Exn _ | Unmodelled => Dict.empty
  end.

(* ------------------------------------------------------------------ *)
(** ** The list accessors *)

(** A list comprehension [[f(i) for i in l]] whose body may raise. *)
Fixpoint list_comp {A} (f : Z -> res A) (l : list Z) : res (list A) :=
  match l with
  | [] => Val []
  | i :: l' => a <- f i ;; rest <- list_comp f l' ;; Val (a :: rest)
  end.

(** Subscription [d[k]]: a missing key raises [KeyError]. *)
Definition subscript {V} (k : string) (d : Dict.t V) : res V :=
  match Dict.get k d with
  | Some v => Val v
  | None => Exn KeyError
  end.

(** [get_values_list]: get values as list. *)
Definition get_values_list (st : VariableInterface)
  : res (list (option pyval)) :=
  list_comp
    (fun i => w <- subscript (key_of i) (value_widgets st) ;;
              Val (parse_value (value w)))
    (py_range 1 (n_variables st + 1)).

(** [get_names_list]: get names as list. *)
Definition get_names_list (st : VariableInterface) : res (list string) :=
  list_comp
    (fun i => w <- subscript (key_of i) (name_widgets st) ;; Val (value w))
    (py_range 1 (n_variables st + 1)).

(** The entry [get_variables] reports for slot [i]. *)
Definition slot_entry (i : Z) (st : VariableInterface) : var_entry :=
  let raw := value_text_or_default i st in
  mkEntry (parse_value raw) raw (name_text_or_default i st).

(** The indices of the slots of a form. *)
Definition slot_indices (st : VariableInterface) : list Z :=
  py_range 1 (n_variables st + 1).

(** A callback that prints the number of variables it got and returns. *)
Definition counting_callback : Callback :=
  fun vars => mkCb [str_of_int (Z.of_nat (List.length vars))] None.

Definition form2_counting : VariableInterface :=
  the_state
    (create_variable_interface true 2 "Parameter Input" (Some counting_callback)).

(** A character that is no blank and no upper-case letter. *)
Definition is_plain (c : ascii) : bool :=
  negb (Text.is_space c) && negb (Text.is_upper c).

(** The number of digits of the decimal numeral of an integer. *)
Definition numeral_digits (z : Z) : nat :=
  String.length (str_of_int (Z.abs z)).

(** The rows of the container for a count [n]: the column headers, then
    one row per slot. *)
Definition rows_for (n : Z) : list row :=
  (col_header :: map var_row (py_range 1 (n + 1)))%list.

(** The text is inside the fragment of [parse_value]: evaluating it writes
    nothing to standard error and gives a value that can be printed. *)
Definition in_fragment (text : string) : bool :=
  match parse_value text with Some _ => true | None => false end.

(** Every value text of the form is inside the fragment. *)
Definition values_in_fragment (st : VariableInterface) : bool :=
  forallb (fun i => in_fragment (value_text_or_default i st)) (slot_indices st).

(** Every name text of the form is ASCII. *)
Definition names_are_ascii (st : VariableInterface) : bool :=
  forallb (fun i => Text.is_ascii (name_text_or_default i st)) (slot_indices st).
(* ------------------------------------------------------------------ *)
(** ** Properties of the value parser *)

Section ParseValueFacts.

Lemma py_eval_parse_expr text :
  py_eval text = (e <- parse_expr text ;; eval_expr e).
Proof.
  unfold py_eval, parse_expr.
  destruct (tokenize _ text) as [ts | |]; simpl; reflexivity.
Qed.

Lemma text_mem_In x l : Text.mem x l = true <-> In x l.
Proof.
  induction l as [| y l IH]; simpl.
  - split; [discriminate | tauto].
  - rewrite orb_true_iff, IH, String.eqb_eq. split; intros [H | H]; auto.
Qed.

Lemma bind_val {A B} (r : res A) (k : A -> res B) (b : B) :
  bind r k = Val b -> exists a, r = Val a /\ k a = Val b.
Proof. destruct r; simpl; try discriminate. eauto. Qed.

Lemma arith_number op m n v : arith op m n = Val v -> is_number v = true.
Proof.
  unfold arith, arith_int, arith_float, arith_np, np_result, int_result,
    arith_complex, arith_complex_real, arith_real_complex.
  intros H.
  destruct m, n, op; simpl in H;
    repeat match type of H with
      | context [F.of_Z ?z] => destruct (F.of_Z z); simpl in H
      | context [if ?b then _ else _] => destruct b; simpl in H
      end;
    try discriminate; inversion H; reflexivity.
Qed.

Lemma eval_binop_number op v w r :
  eval_binop op v w = Val r -> is_number r = true.
Proof.
  unfold eval_binop.
  destruct (num_of v); [| discriminate].
  destruct (num_of w); [| discriminate].
  apply arith_number.
Qed.

Lemma eval_unop_number op v r :
  eval_unop op v = Val r -> is_number r = true.
Proof.
  destruct op, v; simpl; intros H; try discriminate; inversion H; reflexivity.
Qed.

Lemma numeric_name_number x v :
  Text.mem x numeric_names = true -> lookup_name x = Some v ->
  is_number v = true.
Proof.
  rewrite text_mem_In. simpl.
  intros [<- | [<- | [<- | [<- | [<- | [<- | [<- | [<- | []]]]]]]]] H;
    vm_compute in H; inversion H; reflexivity.
Qed.

(** A pure arithmetic expression evaluates to a number when it evaluates. *)
Lemma pure_arith_number e :
  pure_arith e = true -> forall v, eval_expr e = Val v -> is_number v = true.
Proof.
  induction e as [z | z | s | x | op e IH | op e1 IH1 e2 IH2 | f args];
    cbn [pure_arith eval_expr]; intros Hp v Hv; try discriminate.
  - inversion Hv. reflexivity.
  - apply bind_val in Hv as (x & _ & Hx). inversion Hx. reflexivity.
  - destruct (lookup_name x) eqn:Hl; [| discriminate].
    inversion Hv; subst. eapply numeric_name_number; eauto.
  - apply bind_val in Hv as (w & _ & Hw). eapply eval_unop_number; eauto.
  - apply bind_val in Hv as (w1 & _ & Hv).
    apply bind_val in Hv as (w2 & _ & Hv).
    eapply eval_binop_number; eauto.
Qed.

(** Every name the evaluation resolves is a key of the namespace or the
    name [__builtins__] of the globals. *)
Lemma lookup_name_bound x v :
  lookup_name x = Some v ->
  In x (Dict.keys namespace) \/ x = "__builtins__".
Proof.
  unfold lookup_name.
  destruct (Dict.get x namespace) eqn:Hn.
  - intros _. left. revert Hn. unfold namespace. simpl.
    repeat match goal with
      | |- context [String.eqb x ?k] =>
          destruct (String.eqb_spec x k); [subst; tauto |]
      end.
    discriminate.
  - simpl. destruct (String.eqb_spec x "__builtins__"); [auto | discriminate].
Qed.

End ParseValueFacts.

(* ------------------------------------------------------------------ *)
(** ** The parser on sample texts *)

Section ParseValueExamples.

Example parse_pi : parse_value "pi" = Some (VFloat np_pi).
Proof. reflexivity. Qed.

Example parse_pi_upper_case : parse_value " PI " = Some (VFloat np_pi).
Proof. reflexivity. Qed.

Example parse_two_pi :
  parse_value "2*pi" = Some (VFloat (PrimFloat.mul F.two np_pi)).
Proof. reflexivity. Qed.

Example parse_sqrt2_twice : parse_value "sqrt2" = parse_value "sqrt(2)".
Proof. reflexivity. Qed.

Example parse_i_j : parse_value "i" = parse_value "j".
Proof. reflexivity. Qed.

Example parse_3_4j :
  parse_value "3+4j" = Some (VComplex 0x1.8p+1%float 0x1p+2%float).
Proof. reflexivity. Qed.

Example parse_abc : parse_value "abc" = Some (VStr "abc").
Proof. reflexivity. Qed.

Example parse_import_os :
  parse_value "__import__('os')" = Some (VStr "__import__('os')").
Proof. reflexivity. Qed.

Example parse_42 : parse_value "42" = Some (VInt 42).
Proof. reflexivity. Qed.

Example parse_leading_zeros : parse_value "007" = Some (VFloat 0x1.cp+2%float).
Proof. reflexivity. Qed.

Example parse_infinity : parse_value "Infinity" = Some (VFloat PrimFloat.infinity).
Proof. reflexivity. Qed.

Example parse_division_by_zero : parse_value "pi/0" = Some (VStr "pi/0").
Proof. reflexivity. Qed.

Example parse_debug_name : parse_value "__debug__" = None.
Proof. reflexivity. Qed.

(** Texts left out of the fragment: [eval] warns on standard error on the
    first three, the fourth gives an [int] too long to be printed, and the
    compiler refuses the nesting of the last. *)
Example parse_call_of_a_literal : parse_value "2(3)" = None.
Proof. reflexivity. Qed.

Example parse_sqrt_below_zero : parse_value "sqrt(-1)" = None.
Proof. reflexivity. Qed.

Example parse_numpy_division_by_zero : parse_value "phi/0" = None.
Proof. reflexivity. Qed.

Example parse_long_int : parse_value "100**4096" = None.
Proof. vm_compute. reflexivity. Qed.

Example parse_deep_parentheses :
  parse_value (String.concat "" (repeat "(" 201) ++ "1"
               ++ String.concat "" (repeat ")" 201)) = None.
Proof. vm_compute. reflexivity. Qed.

End ParseValueExamples.

(* ------------------------------------------------------------------ *)
(** ** Facts on dictionaries *)

Module DictFacts.
Import Dict.

Section Facts.
Context {V : Type}.
Implicit Types (d : t V) (k : string) (v : V).

Lemma get_set_same k v d : get k (set k v d) = Some v.
Proof.
  induction d as [| [k' v'] d IH]; simpl.
  - rewrite String.eqb_refl. reflexivity.
  - destruct (String.eqb_spec k k') as [-> | Hne]; simpl.
    + rewrite String.eqb_refl. reflexivity.
    + destruct (String.eqb_spec k k'); [contradiction | exact IH].
Qed.

Lemma get_set_other k k' v d : k <> k' -> get k' (set k v d) = get k' d.
Proof.
  intros Hne. induction d as [| [k0 v0] d IH]; simpl.
  - destruct (String.eqb_spec k' k); [congruence | reflexivity].
  - destruct (String.eqb_spec k k0) as [-> | Hk]; simpl.
    + destruct (String.eqb_spec k' k0); [congruence | reflexivity].
    + rewrite IH. reflexivity.
Qed.

Lemma get_none_iff k d : get k d = None <-> ~ In k (keys d).
Proof.
  induction d as [| [k' v'] d IH]; simpl.
  - tauto.
  - destruct (String.eqb_spec k k') as [-> | Hne].
    + split; [discriminate | tauto].
    + rewrite IH. intuition congruence.
Qed.

Lemma get_some_in k v d : get k d = Some v -> In k (keys d).
Proof.
  intros H. destruct (in_dec string_dec k (keys d)) as [Hi | Hn]; [exact Hi |].
  apply get_none_iff in Hn. congruence.
Qed.

Lemma in_get_some k d : In k (keys d) -> exists v, get k d = Some v.
Proof.
  intros H. destruct (get k d) eqn:E; [eauto |].
  apply get_none_iff in E. contradiction.
Qed.

Lemma keys_set_in k v d : In k (keys d) -> keys (set k v d) = keys d.
Proof.
  induction d as [| [k' v'] d IH]; simpl; [tauto |].
  intros H. destruct (String.eqb_spec k k') as [-> | Hne]; simpl.
  - reflexivity.
  - f_equal. apply IH. destruct H; [congruence | assumption].
Qed.

Lemma keys_set_notin k v d :
  ~ In k (keys d) -> keys (set k v d) = (keys d ++ [k])%list.
Proof.
  induction d as [| [k' v'] d IH]; simpl; [reflexivity |].
  intros H. destruct (String.eqb_spec k k') as [-> | Hne]; simpl.
  - tauto.
  - f_equal. apply IH. tauto.
Qed.

(** A key of the first part of a dictionary is looked up there. *)
Lemma get_app_l k d1 d2 :
  In k (keys d1) -> get k (d1 ++ d2)%list = get k d1.
Proof.
  induction d1 as [| [k' v'] d1 IH]; simpl; [tauto |].
  intros H. destruct (String.eqb_spec k k'); [reflexivity |].
  apply IH. destruct H; [congruence | assumption].
Qed.

Lemma get_app_r k d1 d2 :
  ~ In k (keys d1) -> get k (d1 ++ d2)%list = get k d2.
Proof.
  induction d1 as [| [k' v'] d1 IH]; simpl; [reflexivity |].
  intros H. destruct (String.eqb_spec k k'); [subst; tauto |].
  apply IH. tauto.
Qed.

Lemma keys_app d1 d2 : keys (d1 ++ d2)%list = (keys d1 ++ keys d2)%list.
Proof. apply map_app. Qed.

(** Removing a key that first occurs after the part [d1]. *)
Lemma remove_app_r k v d1 d2 :
  ~ In k (keys d1) ->
  remove k (d1 ++ (k, v) :: d2)%list = (d1 ++ d2)%list.
Proof.
  induction d1 as [| [k' v'] d1 IH]; simpl.
  - rewrite String.eqb_refl. reflexivity.
  - intros H. destruct (String.eqb_spec k k'); [subst; tauto |].
    f_equal. apply IH. tauto.
Qed.

(** A dictionary splits along any splitting of its keys. *)
Lemma split_keys d ks1 ks2 :
  keys d = (ks1 ++ ks2)%list ->
  exists d1 d2, d = (d1 ++ d2)%list /\ keys d1 = ks1 /\ keys d2 = ks2.
Proof.
  revert d. induction ks1 as [| k ks1 IH]; intros d H; simpl in H.
  - exists [], d. auto.
  - destruct d as [| [k' v'] d]; [discriminate |].
    simpl in H. injection H as -> H.
    destruct (IH d H) as (d1 & d2 & -> & <- & <-).
    exists ((k, v') :: d1)%list, d2. auto.
Qed.

End Facts.
End DictFacts.

(* ------------------------------------------------------------------ *)
(** ** Keys and indices *)

Section Keys.

Lemma int_of_str_str_of_int i : int_of_str (str_of_int i) = Val i.
Proof.
  unfold int_of_str, str_of_int.
  rewrite NilZero.isi.
  - rewrite DecimalZ.of_to. reflexivity.
  - destruct i; simpl; try discriminate.
    intros [= H]. now apply DecimalPos.Unsigned.to_uint_nonnil in H.
  - destruct i; simpl; try discriminate.
    intros [= H]. now apply DecimalPos.Unsigned.to_uint_nonnil in H.
Qed.

Lemma drop_key_of i : Text.drop 3 (key_of i) = str_of_int i.
Proof. reflexivity. Qed.

Lemma key_of_inj i j : key_of i = key_of j -> i = j.
Proof.
  intros H. apply (f_equal (Text.drop 3)) in H. rewrite !drop_key_of in H.
  apply (f_equal int_of_str) in H. rewrite !int_of_str_str_of_int in H.
  congruence.
Qed.

Lemma py_range_1 n : py_range 1 (n + 1) = map Z.of_nat (seq 1 (Z.to_nat n)).
Proof.
  unfold py_range. replace (n + 1 - 1) with n by lia.
  rewrite <- seq_shift, map_map. apply map_ext. intros k. lia.
Qed.

Lemma var_keys_vk n : var_keys n = vk (Z.to_nat n).
Proof. unfold var_keys, vk. rewrite py_range_1, map_map. reflexivity. Qed.

Lemma vk_S m : vk (S m) = (vk m ++ [key_of (Z.of_nat (S m))])%list.
Proof. unfold vk. rewrite seq_S, map_app. reflexivity. Qed.

Lemma vk_app a b :
  vk (a + b) =
  (vk a ++ map (fun k => key_of (Z.of_nat k)) (seq (S a) b))%list.
Proof. unfold vk. rewrite seq_app, map_app. reflexivity. Qed.

Lemma in_vk i m : In (key_of i) (vk m) <-> 1 <= i <= Z.of_nat m.
Proof.
  unfold vk. rewrite in_map_iff. split.
  - intros (k & Hk & Hin). apply key_of_inj in Hk. apply in_seq in Hin. lia.
  - intros H. exists (Z.to_nat i). split.
    + f_equal. lia.
    + apply in_seq. lia.
Qed.

Lemma NoDup_vk m : NoDup (vk m).
Proof.
  unfold vk. apply Injective_map_NoDup.
  - intros x y H. apply key_of_inj in H. lia.
  - apply seq_NoDup.
Qed.

Lemma existsb_range i m :
  existsb (Z.eqb i) (map Z.of_nat (seq 1 m)) = true <-> 1 <= i <= Z.of_nat m.
Proof.
  rewrite existsb_exists. split.
  - intros (x & Hin & Heq). apply Z.eqb_eq in Heq. subst x.
    apply in_map_iff in Hin as (k & <- & Hk). apply in_seq in Hk. lia.
  - intros H. exists i. split; [| apply Z.eqb_refl].
    apply in_map_iff. exists (Z.to_nat i). split; [lia |].
    apply in_seq. lia.
Qed.

End Keys.

(* ------------------------------------------------------------------ *)
(** ** The rebuild of the rows *)

Section BuildRows.
Import DictFacts.

Lemma build_loop_app l1 l2 ws :
  build_loop (l1 ++ l2) ws = build_loop l2 (build_loop l1 ws).
Proof. unfold build_loop. apply fold_left_app. Qed.

(** The value widget under [var<i>] after the loop: its old text, or the
    default, when [i] was visited; untouched otherwise. *)
Lemma build_loop_get_value l : forall ws i,
  Dict.get (key_of i) (fst (build_loop l ws)) =
  if existsb (Z.eqb i) l then
    Some (mkText
            match Dict.get (key_of i) (fst ws) with
            | Some w => value w
            | None => "0"
            end value_placeholder)
  else Dict.get (key_of i) (fst ws).
Proof.
  induction l as [| j l IH]; intros [vw nw] i; [reflexivity |].
  change (build_loop (j :: l) (vw, nw))
    with (build_loop l (build_row j (vw, nw))).
  rewrite IH. cbn [existsb build_row fst].
  destruct (Z.eqb_spec i j) as [-> | Hne]; cbn [orb].
  - rewrite get_set_same. cbn [value]. destruct (existsb _ l); reflexivity.
  - rewrite get_set_other by (intros E; apply key_of_inj in E; congruence).
    reflexivity.
Qed.

Lemma build_loop_get_name l : forall ws i,
  Dict.get (key_of i) (snd (build_loop l ws)) =
  if existsb (Z.eqb i) l then
    Some (mkText
            match Dict.get (key_of i) (snd ws) with
            | Some w => value w
            | None => "var" ++ str_of_int i
            end (name_placeholder i))
  else Dict.get (key_of i) (snd ws).
Proof.
  induction l as [| j l IH]; intros [vw nw] i; [reflexivity |].
  change (build_loop (j :: l) (vw, nw))
    with (build_loop l (build_row j (vw, nw))).
  rewrite IH. cbn [existsb build_row snd].
  destruct (Z.eqb_spec i j) as [-> | Hne]; cbn [orb].
  - rewrite get_set_same. cbn [value]. destruct (existsb _ l); reflexivity.
  - rewrite get_set_other by (intros E; apply key_of_inj in E; congruence).
    reflexivity.
Qed.

(** The keys after the loop over [1 .. b], from the keys [var1 .. vara]. *)
Lemma build_loop_keys a b vw nw :
  Dict.keys vw = vk a -> Dict.keys nw = vk a ->
  Dict.keys (fst (build_loop (map Z.of_nat (seq 1 b)) (vw, nw))) = vk (Nat.max a b)
  /\ Dict.keys (snd (build_loop (map Z.of_nat (seq 1 b)) (vw, nw))) = vk (Nat.max a b).
Proof.
  intros Hv Hn. induction b as [| b [IHv IHn]].
  - simpl. rewrite Nat.max_0_r. auto.
  - rewrite seq_S, map_app, build_loop_app. cbn [map].
    destruct (build_loop (map Z.of_nat (seq 1 b)) (vw, nw)) as [vw' nw'].
    cbn [fst snd] in IHv, IHn. cbn [build_loop fold_left build_row fst snd].
    replace (1 + b)%nat with (S b) by lia.
    destruct (Nat.le_gt_cases (S b) a) as [Hle | Hgt].
    + replace (Nat.max a (S b)) with (Nat.max a b) by lia.
      rewrite !keys_set_in; auto.
      * rewrite IHn. apply in_vk. lia.
      * rewrite IHv. apply in_vk. lia.
    + replace (Nat.max a b) with b in * by lia.
      replace (Nat.max a (S b)) with (S b) by lia.
      rewrite !keys_set_notin, IHv, IHn, vk_S; auto.
      * rewrite IHn, in_vk. lia.
      * rewrite IHv, in_vk. lia.
Qed.

Lemma filter_none {A} (f : A -> bool) l :
  (forall x, In x l -> f x = false) -> filter f l = [].
Proof.
  induction l as [| x l IH]; simpl; intros H; [reflexivity |].
  rewrite (H x) by auto. apply IH. auto.
Qed.

Lemma filter_all {A} (f : A -> bool) l :
  (forall x, In x l -> f x = true) -> filter f l = l.
Proof.
  induction l as [| x l IH]; simpl; intros H; [reflexivity |].
  rewrite (H x) by auto. f_equal. apply IH. auto.
Qed.

Lemma keys_to_remove_map n l :
  keys_to_remove n (map (fun k => key_of (Z.of_nat k)) l) =
  Val (map (fun k => key_of (Z.of_nat k))
         (filter (fun k => Z.of_nat k >? n) l)).
Proof.
  induction l as [| k l IH]; [reflexivity |].
  cbn [map keys_to_remove filter].
  rewrite drop_key_of, int_of_str_str_of_int, IH. cbn [bind].
  destruct (Z.of_nat k >? n); reflexivity.
Qed.

(** From the keys [var1 .. varm], the keys beyond the count [n] are those
    after the first [Z.to_nat n]. *)
Lemma keys_to_remove_vk n b c :
  b = Z.to_nat n ->
  keys_to_remove n (vk (b + c)) =
  Val (map (fun k => key_of (Z.of_nat k)) (seq (S b) c)).
Proof.
  intros Hb. unfold vk. rewrite keys_to_remove_map, seq_app, filter_app.
  rewrite filter_none, filter_all; [reflexivity | |].
  - intros k Hk. apply in_seq in Hk. apply Z.gtb_lt. lia.
  - intros k Hk. apply in_seq in Hk.
    destruct (Z.gtb_spec (Z.of_nat k) n); [lia | reflexivity].
Qed.

Lemma firstn_app_exact {A} (l1 l2 : list A) n :
  List.length l1 = n -> firstn n (l1 ++ l2) = l1.
Proof.
  intros <-. rewrite firstn_app, Nat.sub_diag, firstn_all. simpl.
  apply app_nil_r.
Qed.

(** Deleting the last keys of both dictionaries, in order, leaves their
    first entries as they are. *)
Lemma del_keys_suffix pre : forall ks (vw nw : Dict.t Text),
  Dict.keys vw = (pre ++ ks)%list -> Dict.keys nw = (pre ++ ks)%list ->
  NoDup (pre ++ ks) ->
  del_keys ks (vw, nw) =
  Val (firstn (List.length pre) vw, firstn (List.length pre) nw).
Proof.
  induction ks as [| k ks IH]; intros vw nw Hv Hn Hnd.
  - rewrite app_nil_r in Hv, Hn. cbn [del_keys].
    rewrite <- Hv at 1. rewrite <- Hn. unfold Dict.keys.
    rewrite !length_map, !firstn_all. reflexivity.
  - apply split_keys in Hv as (v1 & v2 & -> & Hv1 & Hv2).
    apply split_keys in Hn as (n1 & n2 & -> & Hn1 & Hn2).
    destruct v2 as [| [kv wv] v2]; [discriminate |].
    destruct n2 as [| [kn wn] n2]; [discriminate |].
    cbn [Dict.keys map fst] in Hv2, Hn2.
    injection Hv2 as -> Hv2. injection Hn2 as -> Hn2.
    assert (Hk : ~ In k pre) by (apply NoDup_remove_2 in Hnd; rewrite in_app_iff in Hnd; tauto).
    cbn [del_keys fst snd]. unfold Dict.del, Dict.mem.
    rewrite !get_app_r by (rewrite ?Hv1, ?Hn1; exact Hk).
    cbn [Dict.get]. rewrite String.eqb_refl.
    rewrite !remove_app_r by (rewrite ?Hv1, ?Hn1; exact Hk).
    rewrite IH.
    + assert (Lv : List.length v1 = List.length pre)
        by (rewrite <- Hv1; unfold Dict.keys; now rewrite length_map).
      assert (Ln : List.length n1 = List.length pre)
        by (rewrite <- Hn1; unfold Dict.keys; now rewrite length_map).
      rewrite !firstn_app_exact by assumption. reflexivity.
    + rewrite keys_app, Hv1. unfold Dict.keys. rewrite Hv2. reflexivity.
    + rewrite keys_app, Hn1. unfold Dict.keys. rewrite Hn2. reflexivity.
    + apply NoDup_remove_1 in Hnd. exact Hnd.
Qed.

(** Looking a key of the first [m] keys up in the first [m] entries. *)
Lemma get_firstn {V} (d : Dict.t V) pre ks k :
  Dict.keys d = (pre ++ ks)%list -> In k pre ->
  Dict.get k (firstn (List.length pre) d) = Dict.get k d.
Proof.
  intros H Hin. apply split_keys in H as (d1 & d2 & -> & H1 & H2).
  rewrite firstn_app_exact
    by (rewrite <- H1; unfold Dict.keys; now rewrite length_map).
  symmetry. apply get_app_l. now rewrite H1.
Qed.

Lemma keys_firstn {V} (d : Dict.t V) pre ks :
  Dict.keys d = (pre ++ ks)%list ->
  Dict.keys (firstn (List.length pre) d) = pre.
Proof.
  intros H. apply split_keys in H as (d1 & d2 & -> & H1 & H2).
  rewrite firstn_app_exact
    by (rewrite <- H1; unfold Dict.keys; now rewrite length_map).
  exact H1.
Qed.

(** What [_build_variable_rows] does to a form whose dictionaries hold
    the keys [var1 .. vara]: it returns, the dictionaries then hold the
    keys [var1 .. varn] for the current count [n], and every slot keeps
    its text if it had one and gets the defaults otherwise. *)
Lemma build_rows_spec st a :
  Dict.keys (value_widgets st) = vk a ->
  Dict.keys (name_widgets st) = vk a ->
  var_container st <> None ->
  exists vw nw,
    _build_variable_rows st =
      Val (with_var_container
             (col_header :: map var_row (py_range 1 (n_variables st + 1)))
             (with_widgets vw nw st))
    /\ Dict.keys vw = var_keys (n_variables st)
    /\ Dict.keys nw = var_keys (n_variables st)
    /\ (forall i, 1 <= i <= n_variables st ->
          Dict.get (key_of i) vw =
            Some (mkText
                    match Dict.get (key_of i) (value_widgets st) with
                    | Some w => value w
                    | None => "0"
                    end value_placeholder)
          /\ Dict.get (key_of i) nw =
            Some (mkText
                    match Dict.get (key_of i) (name_widgets st) with
                    | Some w => value w
                    | None => "var" ++ str_of_int i
                    end (name_placeholder i))).
Proof.
  intros Hv Hn Hc.
  set (b := Z.to_nat (n_variables st)).
  set (ws := build_loop (map Z.of_nat (seq 1 b))
               (value_widgets st, name_widgets st)).
  destruct (build_loop_keys a b _ _ Hv Hn) as [Kv Kn]. fold ws in Kv, Kn.
  assert (Hmax : Nat.max a b = (b + (Nat.max a b - b))%nat) by lia.
  rewrite Hmax in Kv, Kn. set (c := (Nat.max a b - b)%nat) in *.
  exists (firstn (List.length (vk b)) (fst ws)),
         (firstn (List.length (vk b)) (snd ws)).
  rewrite vk_app in Kv, Kn.
  split; [| split; [| split]].
  - unfold _build_variable_rows. rewrite py_range_1. fold b.
    change (fold_left (fun ws i => build_row i ws) (map Z.of_nat (seq 1 b))
              (value_widgets st, name_widgets st)) with ws.
    rewrite Kv, <- vk_app, (keys_to_remove_vk _ b c eq_refl). cbn [bind].
    destruct ws as [vw nw]. cbn [fst snd] in *.
    rewrite (del_keys_suffix (vk b)); auto.
    + cbn [bind fst snd]. destruct (var_container st); [reflexivity | congruence].
    + rewrite <- vk_app. apply NoDup_vk.
  - rewrite var_keys_vk. fold b. eapply keys_firstn; eauto.
  - rewrite var_keys_vk. fold b. eapply keys_firstn; eauto.
  - intros i Hi.
    assert (Hin : In (key_of i) (vk b)) by (apply in_vk; unfold b; lia).
    assert (Hex : existsb (Z.eqb i) (map Z.of_nat (seq 1 b)) = true)
      by (apply existsb_range; unfold b; lia).
    rewrite (get_firstn _ _ _ _ Kv Hin), (get_firstn _ _ _ _ Kn Hin).
    unfold ws. rewrite build_loop_get_value, build_loop_get_name, Hex.
    auto.
Qed.

End BuildRows.

(* ------------------------------------------------------------------ *)
(** ** The count change and the invariant of the form *)

(** Reduction of the field projections over the record updates. *)
Ltac simpl_vi :=
  cbn [n_variables title callback value_widgets name_widgets output
       var_container n_input status with_widgets with_n_variables
       with_n_input with_status with_output with_var_container __init__
       fst snd].

Tactic Notation "simpl_vi" "in" hyp(H) :=
  cbn [n_variables title callback value_widgets name_widgets output
       var_container n_input status with_widgets with_n_variables
       with_n_input with_status with_output with_var_container __init__
       fst snd] in H.

Section CountChange.
Import DictFacts.

Lemma update_variable_count_eq st m :
  n_input st = Some m ->
  _update_variable_count st =
  finish_update (clamp m) (with_n_input (clamp m) st).
Proof.
  destruct st as [n t cb vw nw o vc ni s]. cbn [n_input]. intros ->.
  unfold _update_variable_count, clamp, finish_update. cbn [n_input].
  destruct (Z.ltb_spec m 1).
  - destruct (Z.gtb_spec 1 50); [lia |]. reflexivity.
  - destruct (Z.gtb_spec m 50); reflexivity.
Qed.

Lemma setCount_eq st m :
  n_input st <> None ->
  setCount m st = finish_update (clamp m) (with_n_input (clamp m) st).
Proof.
  intros H. unfold setCount. cbn [handle].
  destruct (n_input st) eqn:E; [| congruence]. cbn [bind handle].
  rewrite (update_variable_count_eq _ m) by reflexivity.
  reflexivity.
Qed.

Lemma get_key_in_var_keys {V} (d : Dict.t V) n i v :
  Dict.keys d = var_keys n -> Dict.get (key_of i) d = Some v -> 1 <= i <= n.
Proof.
  intros Hk Hg. apply get_some_in in Hg. rewrite Hk, var_keys_vk in Hg.
  apply in_vk in Hg. lia.
Qed.

(** Setting the count on a well-formed form returns the form rebuilt for
    the clamped count, and that form is well formed. *)
Lemma setCount_spec st m :
  Inv st ->
  exists st', setCount m st = Val st' /\ rebuilt st (clamp m) st' /\ Inv st'.
Proof.
  intros I. rewrite setCount_eq by apply I.
  set (n := clamp m). unfold finish_update.
  destruct (build_rows_spec (with_n_variables n (with_n_input n st))
              (Z.to_nat (n_variables st)))
    as (vw & nw & Hb & Kv & Kn & Hs).
  - simpl_vi. rewrite <- var_keys_vk. apply I.
  - simpl_vi. rewrite <- var_keys_vk. apply I.
  - simpl_vi. apply I.
  - rewrite Hb. cbn [bind]. simpl_vi in Kv. simpl_vi in Kn. simpl_vi in Hs.
    destruct (status st) as [s |] eqn:Es; [| now destruct (inv_status _ I)].
    simpl_vi. rewrite Es. eexists. split; [reflexivity |].
    split.
    + constructor; simpl_vi; auto.
    + constructor; simpl_vi; try congruence.
      * intros i w Hg.
        destruct (Hs i (get_key_in_var_keys _ _ _ _ Kv Hg)) as [Hv _].
        rewrite Hv in Hg. injection Hg as <-. reflexivity.
      * intros i w Hg.
        destruct (Hs i (get_key_in_var_keys _ _ _ _ Kn Hg)) as [_ Hn].
        rewrite Hn in Hg. injection Hg as <-. reflexivity.
      * apply I.
Qed.

(** Creating the interface in the notebook gives a well-formed form whose
    slots all hold the defaults. *)
Lemma create_spec n t cb :
  exists st,
    create_variable_interface true n t cb = Val st /\ Inv st
    /\ n_variables st = n
    /\ forall i, 1 <= i <= n ->
         Dict.get (key_of i) (value_widgets st) = Some default_value_widget
         /\ Dict.get (key_of i) (name_widgets st) = Some (default_name_widget i).
Proof.
  unfold create_variable_interface, create_interface. cbn [negb].
  destruct (build_rows_spec
              (with_var_container [] (with_n_input n (__init__ n t cb))) 0)
    as (vw & nw & Hb & Kv & Kn & Hs); try reflexivity; try discriminate.
  simpl_vi in Hb. simpl_vi. rewrite Hb. cbn [bind].
  simpl_vi in Kv. simpl_vi in Kn. simpl_vi in Hs.
  eexists. split; [reflexivity |]. split; [| split; [reflexivity |]].
  - constructor; simpl_vi; try congruence.
    + intros i w Hg.
      destruct (Hs i (get_key_in_var_keys _ _ _ _ Kv Hg)) as [Hv _].
      rewrite Hv in Hg. injection Hg as <-. reflexivity.
    + intros i w Hg.
      destruct (Hs i (get_key_in_var_keys _ _ _ _ Kn Hg)) as [_ Hn].
      rewrite Hn in Hg. injection Hg as <-. reflexivity.
  - simpl_vi. exact Hs.
Qed.

Lemma keys_edit_text key s (d : Dict.t Text) :
  Dict.keys (edit_text key s d) = Dict.keys d.
Proof.
  unfold edit_text. destruct (Dict.get key d) eqn:E; [| reflexivity].
  apply keys_set_in. eapply get_some_in; eauto.
Qed.

Lemma placeholder_edit_text key s (d : Dict.t Text) k w :
  Dict.get k (edit_text key s d) = Some w ->
  exists w0, Dict.get k d = Some w0 /\ placeholder w = placeholder w0.
Proof.
  unfold edit_text. destruct (Dict.get key d) as [w0 |] eqn:E.
  - destruct (string_dec key k) as [<- | Hne].
    + rewrite get_set_same. intros [= <-]. eauto.
    + rewrite get_set_other by assumption. eauto.
  - eauto.
Qed.

(** The run handler leaves everything but the status and the output as it
    is, and does not fail on a well-formed form. *)
Lemma get_variables_total st :
  (forall k, In k (Dict.keys (value_widgets st)) ->
             In k (Dict.keys (name_widgets st))) ->
  exists vars, get_variables st = Val vars.
Proof.
  unfold get_variables. generalize (@Dict.empty var_entry).
  induction (value_widgets st) as [| [k w] d IH]; intros acc H.
  - simpl. eauto.
  - cbn [fold_left bind].
    destruct (in_get_some k (name_widgets st)) as [nw ->].
    + apply H. left. reflexivity.
    + apply IH. intros k' Hk'. apply H. right. exact Hk'.
Qed.

End CountChange.

(* ------------------------------------------------------------------ *)
(** ** The run handler and the reachable states *)

Section RunHandler.
Import DictFacts.

Lemma Inv_same_form st st' :
  Inv st -> same_form st st' -> output st' <> None -> status st' <> None ->
  Inv st'.
Proof.
  intros I [] Ho Hs. constructor; try assumption.
  - rewrite sf_values0, sf_count0. apply I.
  - rewrite sf_names0, sf_count0. apply I.
  - rewrite sf_values0. apply I.
  - rewrite sf_names0. apply I.
  - rewrite sf_n_input0. apply I.
  - rewrite sf_var_container0. apply I.
Qed.

Lemma get_variables_Inv st : Inv st -> exists vars, get_variables st = Val vars.
Proof.
  intros I. apply get_variables_total. intros k.
  rewrite (inv_value_keys _ I), (inv_name_keys _ I). auto.
Qed.

Lemma get_variables_same_form st st' :
  same_form st st' -> get_variables st' = get_variables st.
Proof.
  intros [_ _ _ Hv Hn _ _]. unfold get_variables. rewrite Hv, Hn. reflexivity.
Qed.

Lemma run_result st st' :
  Inv st -> same_form st st' -> output st' <> None -> status st' <> None ->
  exists st'', Val st' = Val st'' /\ same_form st st'' /\ Inv st''.
Proof.
  intros I S Ho Hs. exists st'. split; [reflexivity |]. split; [exact S |].
  eapply Inv_same_form; eauto.
Qed.

(** The run handler returns on a well-formed form, and changes nothing but
    the status and the output. *)
Lemma on_run_spec st :
  Inv st -> exists st', _on_run st = Val st' /\ same_form st st' /\ Inv st'.
Proof.
  intros I. unfold _on_run.
  destruct (status st) as [s |] eqn:Es; [| now destruct (inv_status _ I)].
  destruct (output st) as [o |] eqn:Eo; [| now destruct (inv_output _ I)].
  destruct (get_variables_Inv st I) as [vars Hv].
  assert (Hv' : get_variables (with_status Running st) = Val vars)
    by (rewrite <- Hv; apply get_variables_same_form; constructor; reflexivity).
  simpl_vi. rewrite Hv'.
  destruct (callback st) as [cb |];
    [destruct (cb_raised (cb vars)) as [[trace | trace] |] |];
    cbn [bind]; apply run_result;
    solve [ exact I | constructor; reflexivity | simpl_vi; discriminate ].
Qed.

Lemma Inv_edit_value st key s :
  Inv st ->
  Inv (with_widgets (edit_text key s (value_widgets st)) (name_widgets st) st).
Proof.
  intros I. constructor; simpl_vi; try apply I.
  - rewrite keys_edit_text. apply I.
  - intros i w Hg. apply placeholder_edit_text in Hg as (w0 & Hg & ->).
    eapply inv_value_ph; eauto.
Qed.

Lemma Inv_edit_name st key s :
  Inv st ->
  Inv (with_widgets (value_widgets st) (edit_text key s (name_widgets st)) st).
Proof.
  intros I. constructor; simpl_vi; try apply I.
  - rewrite keys_edit_text. apply I.
  - intros i w Hg. apply placeholder_edit_text in Hg as (w0 & Hg & ->).
    eapply inv_name_ph; eauto.
Qed.

Lemma Inv_edit_count st n : Inv st -> Inv (with_n_input n st).
Proof. intros I. constructor; simpl_vi; try apply I. discriminate. Qed.

Lemma update_variable_count_spec st :
  Inv st ->
  exists m st', n_input st = Some m /\ _update_variable_count st = Val st'
                /\ rebuilt st (clamp m) st' /\ Inv st'.
Proof.
  intros I. destruct (n_input st) as [m |] eqn:E; [| now destruct (inv_n_input _ I)].
  destruct (setCount_spec st m I) as (st' & Hs & R & I').
  exists m, st'. split; [reflexivity |]. split; [| auto].
  rewrite <- Hs. unfold setCount. cbn [handle]. rewrite E. cbn [bind handle].
  rewrite (update_variable_count_eq st m E).
  rewrite (update_variable_count_eq (with_n_input m st) m eq_refl).
  reflexivity.
Qed.

(** Every event is handled on a well-formed form, and keeps it so. *)
Lemma handle_Inv st ev :
  Inv st -> exists st', handle ev st = Val st' /\ Inv st'.
Proof.
  intros I. destruct ev as [key s | key s | n | |]; cbn [handle].
  - eexists. split; [reflexivity |]. now apply Inv_edit_value.
  - eexists. split; [reflexivity |]. now apply Inv_edit_name.
  - destruct (n_input st) eqn:E; [| now destruct (inv_n_input _ I)].
    eexists. split; [reflexivity |]. now apply Inv_edit_count.
  - destruct (update_variable_count_spec st I) as (m & st' & _ & H & _ & I').
    eauto.
  - destruct (on_run_spec st I) as (st' & H & _ & I'). eauto.
Qed.

Lemma reachable_Inv st : reachable st -> Inv st.
Proof.
  induction 1 as [n t cb st H | st ev st' _ IH H].
  - destruct (create_spec n t cb) as (st0 & H0 & I & _). congruence.
  - destruct (handle_Inv st ev IH) as (st0 & H0 & I). congruence.
Qed.

End RunHandler.

(* ------------------------------------------------------------------ *)
(** ** The run handler in closed form; states holding the same form *)

Section SameForm.
Import DictFacts.

Lemma emit_all_app ls1 ls2 o :
  emit_all (ls1 ++ ls2) o = emit_all ls2 (emit_all ls1 o).
Proof. unfold emit_all. apply fold_left_app. Qed.

(** Once a line is written after [clear_output(wait=True)], what was shown
    before is gone. *)
Lemma emit_all_clear_output_wait ls o1 o2 :
  ls <> [] ->
  emit_all ls (clear_output_wait o1) = emit_all ls (clear_output_wait o2).
Proof. destruct ls; [congruence | reflexivity]. Qed.

Lemma on_run_eq st o vars :
  status st <> None -> output st = Some o -> get_variables st = Val vars ->
  _on_run st =
  Val (with_output
         (emit_all (run_lines (callback st) vars) (clear_output_wait o))
         (with_status (run_status (callback st) vars) st)).
Proof.
  intros Hs Ho Hv. unfold _on_run, run_lines, run_status, print_all.
  destruct (status st) as [s |] eqn:Es; [| congruence]. rewrite Ho.
  assert (Hv' : get_variables (with_status Running st) = Val vars)
    by (rewrite <- Hv; apply get_variables_same_form; constructor; reflexivity).
  simpl_vi. rewrite Hv'.
  destruct st as [n t cb vw nw o0 vc ni s0]. simpl_vi.
  destruct cb as [f |];
    [destruct (cb_raised (f vars)) as [[trace | trace] |] |]; cbn [bind trace_of].
  - rewrite emit_all_app. reflexivity.
  - rewrite emit_all_app. reflexivity.
  - rewrite app_nil_r. reflexivity.
  - rewrite !emit_all_app. reflexivity.
Qed.

(** Two dictionaries with the same keys, each once, and the same value
    under each key are the same dictionary. *)
Lemma dict_ext {V} : forall (d1 d2 : Dict.t V),
  Dict.keys d1 = Dict.keys d2 -> NoDup (Dict.keys d1) ->
  (forall k, In k (Dict.keys d1) -> Dict.get k d1 = Dict.get k d2) ->
  d1 = d2.
Proof.
  induction d1 as [| [k v] d1 IH]; intros [| [k2 v2] d2] Hk Hnd Hg;
    try discriminate; [reflexivity |].
  cbn [Dict.keys map fst] in Hk, Hnd. injection Hk as <- Hk.
  inversion Hnd as [| ? ? Hnotin Hnd']; subst.
  assert (E := Hg k (or_introl eq_refl)). cbn [Dict.get] in E.
  rewrite String.eqb_refl in E. injection E as <-.
  f_equal. apply IH; auto.
  intros k' Hin. assert (E := Hg k' (or_intror Hin)). cbn [Dict.get] in E.
  destruct (String.eqb_spec k' k); [subst; contradiction | exact E].
Qed.

Lemma rebuilt_same_form s1 s2 n r1 r2 :
  same_form s1 s2 -> rebuilt s1 n r1 -> rebuilt s2 n r2 ->
  same_form r1 r2 /\ status r1 = status r2.
Proof.
  intros S R1 R2.
  assert (D : forall i, value_text_or_default i s2 = value_text_or_default i s1
                        /\ name_text_or_default i s2 = name_text_or_default i s1).
  { intros i. unfold value_text_or_default, name_text_or_default.
    rewrite (sf_values _ _ S), (sf_names _ _ S). auto. }
  split; [| rewrite (rb_status _ _ _ R1), (rb_status _ _ _ R2); reflexivity].
  constructor.
  - rewrite (rb_count _ _ _ R1), (rb_count _ _ _ R2). reflexivity.
  - rewrite (rb_title _ _ _ R1), (rb_title _ _ _ R2). apply S.
  - rewrite (rb_callback _ _ _ R1), (rb_callback _ _ _ R2). apply S.
  - apply dict_ext.
    + rewrite (rb_value_keys _ _ _ R1), (rb_value_keys _ _ _ R2). reflexivity.
    + rewrite (rb_value_keys _ _ _ R2), var_keys_vk. apply NoDup_vk.
    + intros k Hk. rewrite (rb_value_keys _ _ _ R2), var_keys_vk in Hk.
      unfold vk in Hk. apply in_map_iff in Hk as (j & <- & Hj).
      apply in_seq in Hj.
      assert (Hi : 1 <= Z.of_nat j <= n) by lia.
      destruct (rb_slots _ _ _ R1 _ Hi) as [-> _].
      destruct (rb_slots _ _ _ R2 _ Hi) as [-> _].
      now destruct (D (Z.of_nat j)) as [-> _].
  - apply dict_ext.
    + rewrite (rb_name_keys _ _ _ R1), (rb_name_keys _ _ _ R2). reflexivity.
    + rewrite (rb_name_keys _ _ _ R2), var_keys_vk. apply NoDup_vk.
    + intros k Hk. rewrite (rb_name_keys _ _ _ R2), var_keys_vk in Hk.
      unfold vk in Hk. apply in_map_iff in Hk as (j & <- & Hj).
      apply in_seq in Hj.
      assert (Hi : 1 <= Z.of_nat j <= n) by lia.
      destruct (rb_slots _ _ _ R1 _ Hi) as [_ ->].
      destruct (rb_slots _ _ _ R2 _ Hi) as [_ ->].
      now destruct (D (Z.of_nat j)) as [_ ->].
  - rewrite (rb_n_input _ _ _ R1), (rb_n_input _ _ _ R2). reflexivity.
  - rewrite (rb_var_container _ _ _ R1), (rb_var_container _ _ _ R2).
    reflexivity.
Qed.

(** An event handled on two states holding the same form gives two states
    holding the same form; after a click the two statuses agree too. *)
Lemma handle_same_form ev s1 s2 :
  Inv s1 -> Inv s2 -> same_form s1 s2 ->
  exists r1 r2,
    handle ev s1 = Val r1 /\ handle ev s2 = Val r2
    /\ Inv r1 /\ Inv r2 /\ same_form r1 r2
    /\ (is_click ev = true -> status r1 = status r2).
Proof.
  intros I1 I2 S. destruct ev as [key s | key s | n | |]; cbn [handle is_click].
  - do 2 eexists. split; [reflexivity |]. split; [reflexivity |].
    split; [now apply Inv_edit_value |]. split; [now apply Inv_edit_value |].
    split; [| discriminate].
    destruct S. constructor; simpl_vi; congruence.
  - do 2 eexists. split; [reflexivity |]. split; [reflexivity |].
    split; [now apply Inv_edit_name |]. split; [now apply Inv_edit_name |].
    split; [| discriminate].
    destruct S. constructor; simpl_vi; congruence.
  - destruct (n_input s1) eqn:E1; [| now destruct (inv_n_input _ I1)].
    destruct (n_input s2) eqn:E2; [| now destruct (inv_n_input _ I2)].
    do 2 eexists. split; [reflexivity |]. split; [reflexivity |].
    split; [now apply Inv_edit_count |]. split; [now apply Inv_edit_count |].
    split; [| discriminate].
    destruct S. constructor; simpl_vi; congruence.
  - destruct (update_variable_count_spec s1 I1) as (m1 & r1 & E1 & H1 & R1 & J1).
    destruct (update_variable_count_spec s2 I2) as (m2 & r2 & E2 & H2 & R2 & J2).
    assert (m2 = m1) by (rewrite (sf_n_input _ _ S) in E2; congruence). subst m2.
    exists r1, r2. destruct (rebuilt_same_form _ _ _ _ _ S R1 R2). auto 10.
  - destruct (get_variables_Inv s1 I1) as [vars Hv].
    assert (Hv2 : get_variables s2 = Val vars)
      by (rewrite <- Hv; now apply get_variables_same_form).
    destruct (output s1) as [o1 |] eqn:O1; [| now destruct (inv_output _ I1)].
    destruct (output s2) as [o2 |] eqn:O2; [| now destruct (inv_output _ I2)].
    rewrite (on_run_eq s1 o1 vars), (on_run_eq s2 o2 vars);
      auto; try apply I1; try apply I2.
    rewrite (sf_callback _ _ S).
    assert (S' : same_form
              (with_output (emit_all (run_lines (callback s1) vars)
                              (clear_output_wait o1))
                 (with_status (run_status (callback s1) vars) s1))
              (with_output (emit_all (run_lines (callback s1) vars)
                              (clear_output_wait o2))
                 (with_status (run_status (callback s1) vars) s2)))
      by (constructor; simpl_vi; apply S).
    do 2 eexists. split; [reflexivity |]. split; [reflexivity |].
    split; [| split; [| split; [exact S' | reflexivity]]].
    + eapply Inv_same_form; [exact I1 | constructor; reflexivity | |];
        simpl_vi; discriminate.
    + eapply Inv_same_form; [exact I2 | constructor; reflexivity | |];
        simpl_vi; discriminate.
Qed.

Lemma run_events_same_form evs : forall s1 s2,
  Inv s1 -> Inv s2 -> same_form s1 s2 ->
  exists r1 r2,
    run_events evs s1 = Val r1 /\ run_events evs s2 = Val r2
    /\ Inv r1 /\ Inv r2 /\ same_form r1 r2.
Proof.
  induction evs as [| ev evs IH]; intros s1 s2 I1 I2 S; cbn [run_events].
  - exists s1, s2. auto.
  - destruct (handle_same_form ev s1 s2 I1 I2 S)
      as (r1 & r2 & -> & -> & J1 & J2 & S' & _).
    cbn [bind]. apply IH; assumption.
Qed.

End SameForm.

(* ------------------------------------------------------------------ *)
(** ** Collecting the values by name *)

Section CollectByName.
Import DictFacts.

Lemma collect_get_notin l : forall acc nm,
  ~ In nm (map fst l) ->
  Dict.get nm (collect_by_name l acc) = Dict.get nm acc.
Proof.
  induction l as [| [k raw] l IH]; intros acc nm H; [reflexivity |].
  cbn [collect_by_name fold_left fst snd]. fold (collect_by_name l).
  simpl in H. rewrite IH by tauto.
  apply get_set_other. tauto.
Qed.

(** The last assignment to a name decides its entry. *)
Lemma collect_last l1 nm raw l2 acc :
  ~ In nm (map fst l2) ->
  Dict.get nm (collect_by_name (l1 ++ (nm, raw) :: l2) acc) =
  Some (parse_value raw).
Proof.
  intros H. unfold collect_by_name. rewrite fold_left_app.
  cbn [fold_left fst snd]. fold (collect_by_name l2).
  rewrite collect_get_notin by exact H. apply get_set_same.
Qed.

Lemma NoDup_keys_set {V} k (v : V) d :
  NoDup (Dict.keys d) -> NoDup (Dict.keys (Dict.set k v d)).
Proof.
  intros H. destruct (in_dec string_dec k (Dict.keys d)) as [Hin | Hn].
  - now rewrite keys_set_in.
  - rewrite keys_set_notin by exact Hn.
    apply NoDup_app; [exact H | repeat constructor; simpl; tauto |].
    intros x Hx [<- | []]. contradiction.
Qed.

Lemma in_keys_set {V} k (v : V) d x :
  In x (Dict.keys (Dict.set k v d)) <-> x = k \/ In x (Dict.keys d).
Proof.
  destruct (in_dec string_dec k (Dict.keys d)) as [Hin | Hn].
  - rewrite keys_set_in by exact Hin. intuition congruence.
  - rewrite keys_set_notin, in_app_iff by exact Hn. simpl. intuition congruence.
Qed.

Lemma collect_NoDup l : forall acc,
  NoDup (Dict.keys acc) -> NoDup (Dict.keys (collect_by_name l acc)).
Proof.
  induction l as [| [k raw] l IH]; intros acc H; [exact H |].
  cbn [collect_by_name fold_left]. apply IH. now apply NoDup_keys_set.
Qed.

Lemma collect_keys l : forall acc x,
  In x (Dict.keys (collect_by_name l acc)) <->
  In x (Dict.keys acc) \/ In x (map fst l).
Proof.
  induction l as [| [k raw] l IH]; intros acc x.
  - simpl. tauto.
  - cbn [collect_by_name fold_left fst snd map]. fold (collect_by_name l).
    rewrite IH, in_keys_set. simpl. intuition congruence.
Qed.

(** On a form whose value keys all have a name widget, the function
    returns the dictionary collected from the slots in their order. *)
Lemma get_values_by_name_eq st :
  (forall k, In k (Dict.keys (value_widgets st)) ->
             In k (Dict.keys (name_widgets st))) ->
  get_values_by_name st = Val (collect_by_name (slot_texts st) Dict.empty).
Proof.
  unfold get_values_by_name, slot_texts, name_text_or_default_key.
  generalize (@Dict.empty (option pyval)).
  induction (value_widgets st) as [| [k w] d IH]; intros acc H.
  - reflexivity.
  - cbn [fold_left bind map fst snd collect_by_name].
    destruct (in_get_some k (name_widgets st)) as [nw Hnw].
    + apply H. left. reflexivity.
    + rewrite Hnw. fold (collect_by_name
        (map (fun kw => (match Dict.get (fst kw) (name_widgets st) with
                         | Some w0 => value w0
                         | None => fst kw
                         end, value (snd kw))) d)).
      apply IH. intros k' Hk'. apply H. right. exact Hk'.
Qed.

(** The value dictionary of a well-formed form around its slot [i]. *)
Lemma slot_split st i :
  Inv st -> 1 <= i <= n_variables st ->
  exists d1 w d2,
    value_widgets st = (d1 ++ (key_of i, w) :: d2)%list
    /\ (forall k, In k (Dict.keys d1) -> exists j, k = key_of j /\ 1 <= j < i)
    /\ (forall k, In k (Dict.keys d2) ->
          exists j, k = key_of j /\ i < j <= n_variables st).
Proof.
  intros I Hi.
  assert (K := inv_value_keys _ I). rewrite var_keys_vk in K.
  set (a := Z.to_nat (i - 1)). set (c := (Z.to_nat (n_variables st) - S a)%nat).
  replace (Z.to_nat (n_variables st)) with (a + S c)%nat in K by lia.
  rewrite vk_app in K. cbn [seq] in K. rewrite map_cons in K.
  assert (Ei : Z.of_nat (S a) = i) by lia. cbv beta in K. rewrite Ei in K.
  apply split_keys in K as (d1 & d2 & E & K1 & K2).
  destruct d2 as [| [k w] d2]; [discriminate |].
  cbn [Dict.keys map fst] in K2. injection K2 as -> K2.
  exists d1, w, d2. split; [exact E |]. split.
  - intros k Hk. rewrite K1 in Hk. unfold vk in Hk.
    apply in_map_iff in Hk as (j & <- & Hj). apply in_seq in Hj.
    exists (Z.of_nat j). split; [reflexivity | lia].
  - intros k Hk. change (In k (map fst d2)) in Hk. rewrite K2 in Hk.
    apply in_map_iff in Hk as (j & <- & Hj). apply in_seq in Hj.
    exists (Z.of_nat j). split; [reflexivity | lia].
Qed.

Lemma slot_texts_names st x :
  Inv st ->
  In x (map fst (slot_texts st)) <->
  exists i, 1 <= i <= n_variables st /\ name_text_or_default i st = x.
Proof.
  intros I. unfold slot_texts. rewrite map_map. cbn [fst].
  rewrite in_map_iff. split.
  - intros ([k w] & <- & Hin). cbn [fst].
    assert (Hk : In k (Dict.keys (value_widgets st)))
      by (apply in_map_iff; exists (k, w); auto).
    rewrite (inv_value_keys _ I), var_keys_vk in Hk. unfold vk in Hk.
    apply in_map_iff in Hk as (j & <- & Hj). apply in_seq in Hj.
    exists (Z.of_nat j). split; [lia | reflexivity].
  - intros (i & Hi & <-).
    destruct (slot_split st i I Hi) as (d1 & w & d2 & E & _).
    exists (key_of i, w). split; [reflexivity |].
    rewrite E. apply in_or_app. right. left. reflexivity.
Qed.

End CollectByName.

(* ------------------------------------------------------------------ *)
(** ** Slots across a count change *)

Section Slots.
Import DictFacts.

Lemma Inv_get_none st i :
  Inv st -> ~ (1 <= i <= n_variables st) ->
  Dict.get (key_of i) (value_widgets st) = None
  /\ Dict.get (key_of i) (name_widgets st) = None.
Proof.
  intros I H. split; apply get_none_iff.
  - rewrite (inv_value_keys _ I), var_keys_vk, in_vk. lia.
  - rewrite (inv_name_keys _ I), var_keys_vk, in_vk. lia.
Qed.

Lemma Inv_get_some st i :
  Inv st -> 1 <= i <= n_variables st ->
  exists v w,
    Dict.get (key_of i) (value_widgets st) = Some (mkText v value_placeholder)
    /\ Dict.get (key_of i) (name_widgets st) = Some (mkText w (name_placeholder i)).
Proof.
  intros I H.
  destruct (in_get_some (key_of i) (value_widgets st)) as [[v pv] Hv].
  { rewrite (inv_value_keys _ I), var_keys_vk, in_vk. lia. }
  destruct (in_get_some (key_of i) (name_widgets st)) as [[w pw] Hw].
  { rewrite (inv_name_keys _ I), var_keys_vk, in_vk. lia. }
  assert (Pv := inv_value_ph _ I _ _ Hv). assert (Pw := inv_name_ph _ I _ _ Hw).
  cbn [placeholder] in Pv, Pw. subst pv pw. eauto.
Qed.

(** A slot that exists before and after a count change is handed over as
    it is: the same text and the same placeholder. *)
Lemma rebuilt_preserved st n st' i :
  Inv st -> rebuilt st n st' -> 1 <= i <= Z.min (n_variables st) n ->
  Dict.get (key_of i) (value_widgets st') = Dict.get (key_of i) (value_widgets st)
  /\ Dict.get (key_of i) (name_widgets st') = Dict.get (key_of i) (name_widgets st).
Proof.
  intros I R H.
  destruct (Inv_get_some st i I) as (v & w & Hv & Hw); [lia |].
  destruct (rb_slots _ _ _ R i) as [Hv' Hw']; [lia |].
  unfold value_text_or_default in Hv'. unfold name_text_or_default in Hw'.
  rewrite Hv in Hv'. rewrite Hw in Hw'. cbn [value] in Hv', Hw'.
  rewrite Hv, Hw. auto.
Qed.

(** A slot beyond the old count is created with the defaults. *)
Lemma rebuilt_fresh st n st' i :
  Inv st -> rebuilt st n st' -> 1 <= i -> n_variables st < i <= n ->
  Dict.get (key_of i) (value_widgets st') = Some default_value_widget
  /\ Dict.get (key_of i) (name_widgets st') = Some (default_name_widget i).
Proof.
  intros I R H1 H.
  destruct (Inv_get_none st i I) as [Hv Hw]; [lia |].
  destruct (rb_slots _ _ _ R i) as [Hv' Hw']; [lia |].
  unfold value_text_or_default in Hv'. unfold name_text_or_default in Hw'.
  rewrite Hv in Hv'. rewrite Hw in Hw'. auto.
Qed.

Lemma clamp_bounds n : 1 <= clamp n <= 50.
Proof.
  unfold clamp. destruct (Z.ltb_spec n 1); [lia |].
  destruct (Z.gtb_spec n 50); lia.
Qed.

Lemma in_var_keys k n :
  In k (var_keys n) <-> exists i, 1 <= i <= n /\ k = key_of i.
Proof.
  rewrite var_keys_vk. unfold vk. rewrite in_map_iff. split.
  - intros (j & <- & Hj). apply in_seq in Hj. exists (Z.of_nat j). split; [lia | reflexivity].
  - intros (i & Hi & ->). exists (Z.to_nat i). split.
    + f_equal. lia.
    + apply in_seq. lia.
Qed.

Lemma py_range_sorted a b : StronglySorted Z.lt (py_range a b).
Proof.
  unfold py_range. generalize (Z.to_nat (b - a)) as m. generalize 0%nat as s.
  intros s m. revert s. induction m as [| m IH]; intros s; cbn [seq map].
  - constructor.
  - constructor; [apply IH |].
    apply Forall_forall. intros x Hx.
    apply in_map_iff in Hx as (k & <- & Hk). apply in_seq in Hk. lia.
Qed.

(** An event other than a click on the update button keeps the count. *)
Lemma handle_count st ev st' :
  Inv st -> ev <> ClickUpdate -> handle ev st = Val st' ->
  n_variables st' = n_variables st.
Proof.
  intros I Hev H. destruct ev; cbn [handle] in H; try congruence.
  - injection H as <-. reflexivity.
  - injection H as <-. reflexivity.
  - destruct (n_input st); [| discriminate]. injection H as <-. reflexivity.
  - destruct (on_run_spec st I) as (st0 & H0 & S & _).
    rewrite H0 in H. injection H as <-. apply S.
Qed.

Lemma run_events_count evs : forall st,
  Inv st -> Forall (fun ev => ev <> ClickUpdate) evs ->
  exists st', run_events evs st = Val st' /\ Inv st'
              /\ n_variables st' = n_variables st.
Proof.
  induction evs as [| ev evs IH]; intros st I F; cbn [run_events].
  - eauto.
  - inversion F as [| ? ? Hev F']; subst.
    destruct (handle_Inv st ev I) as (st1 & H1 & I1).
    rewrite H1. cbn [bind].
    destruct (IH st1 I1 F') as (st' & H' & I' & C).
    exists st'. split; [exact H' |]. split; [exact I' |].
    rewrite C. eapply handle_count; eauto.
Qed.

End Slots.

(* ------------------------------------------------------------------ *)
(** ** Sequences of events *)

Section Events.

Lemma run_events_app evs1 : forall evs2 st,
  run_events (evs1 ++ evs2) st =
  (st1 <- run_events evs1 st ;; run_events evs2 st1).
Proof.
  induction evs1 as [| ev evs1 IH]; intros evs2 st; cbn [app run_events bind].
  - reflexivity.
  - destruct (handle ev st); cbn [bind]; [apply IH | reflexivity | reflexivity].
Qed.

Lemma with_output_status_idem o s st :
  with_output o (with_status s (with_output o (with_status s st))) =
  with_output o (with_status s st).
Proof. destruct st. reflexivity. Qed.

End Events.

(* ------------------------------------------------------------------ *)
(** ** The example forms are reachable *)

Section Examples.

Lemma reachable_run_events evs : forall st st',
  reachable st -> run_events evs st = Val st' -> reachable st'.
Proof.
  induction evs as [| ev evs IH]; intros st st' R H; cbn [run_events] in H.
  - congruence.
  - destruct (handle ev st) as [st1 | |] eqn:E; try discriminate.
    cbn [bind] in H. eapply IH; [| exact H]. eapply reach_step; eauto.
Qed.

Lemma reachable_form3 : reachable form3.
Proof. apply (reach_create 3 "Parameter Input" None). reflexivity. Qed.

Lemma reachable_form3_mass : reachable form3_mass.
Proof.
  apply (reachable_run_events
           [EditValue "var2" "5"; EditName "var2" "mass"] form3).
  - exact reachable_form3.
  - reflexivity.
Qed.

Lemma reachable_form2_xx : reachable form2_xx.
Proof.
  apply (reachable_run_events
           [EditName "var1" "x"; EditValue "var1" "1";
            EditName "var2" "x"; EditValue "var2" "2*pi"] form2).
  - apply (reach_create 2 "Parameter Input" None). reflexivity.
  - reflexivity.
Qed.

Lemma reachable_form2_raising : reachable form2_raising.
Proof.
  apply (reach_create 2 "Parameter Input" (Some raising_callback)).
  reflexivity.
Qed.

Lemma reachable_form2_exiting : reachable form2_exiting.
Proof.
  apply (reach_create 2 "Parameter Input" (Some exiting_callback)).
  reflexivity.
Qed.

End Examples.

(* ------------------------------------------------------------------ *)
(** ** The form controller: count changes *)

Section CountClaims.

(** C2.  On every displayed form, setting the count returns the form for
    the clamped count [n], in which the slots [1 .. min(o, n)] of the old
    count [o] hold the very widgets they held (same value text, same name
    text, same placeholder), the slots [o+1 .. n] hold the defaults ["0"]
    and ["var<i>"], no other key exists, and title, callback and output
    are untouched. *)
Theorem C2_count_change_keeps_slots st m :
  reachable st ->
  exists st',
    setCount m st = Val st'
    /\ n_variables st' = clamp m
    /\ (forall i, 1 <= i <= Z.min (n_variables st) (clamp m) ->
          Dict.get (key_of i) (value_widgets st') =
            Dict.get (key_of i) (value_widgets st)
          /\ Dict.get (key_of i) (name_widgets st') =
            Dict.get (key_of i) (name_widgets st))
    /\ (forall i, 1 <= i -> n_variables st < i <= clamp m ->
          Dict.get (key_of i) (value_widgets st') =
            Some (mkText "0" value_placeholder)
          /\ Dict.get (key_of i) (name_widgets st') =
            Some (mkText ("var" ++ str_of_int i) (name_placeholder i)))
    /\ (forall k, In k (Dict.keys (value_widgets st'))
                  \/ In k (Dict.keys (name_widgets st')) ->
          exists i, 1 <= i <= clamp m /\ k = key_of i)
    /\ title st' = title st /\ callback st' = callback st
    /\ output st' = output st.
Proof.
  intros R. assert (I := reachable_Inv st R).
  destruct (setCount_spec st m I) as (st' & H & B & I').
  exists st'. split; [exact H |]. split; [apply B |].
  split; [intros i Hi; now apply (rebuilt_preserved st (clamp m)) |].
  split; [intros i H1 Hi; now apply (rebuilt_fresh st (clamp m)) |].
  split; [| split; [apply B | split; apply B]].
  intros k [Hk | Hk].
  - rewrite (rb_value_keys _ _ _ B) in Hk. now apply in_var_keys.
  - rewrite (rb_name_keys _ _ _ B) in Hk. now apply in_var_keys.
Qed.

Lemma C2_witness :
  exists st',
    setCount 5 form3_mass = Val st'
    /\ Dict.get "var2" (value_widgets st') = Some (mkText "5" value_placeholder)
    /\ Dict.get "var2" (name_widgets st') = Some (mkText "mass" (name_placeholder 2))
    /\ Dict.get "var4" (value_widgets st') = Some (mkText "0" value_placeholder)
    /\ Dict.get "var4" (name_widgets st') = Some (mkText "var4" (name_placeholder 4))
    /\ Dict.get "var5" (value_widgets st') = Some (mkText "0" value_placeholder)
    /\ Dict.get "var5" (name_widgets st') = Some (mkText "var5" (name_placeholder 5)).
Proof.
  destruct (C2_count_change_keeps_slots form3_mass 5 reachable_form3_mass)
    as (st' & H & _ & P & N & _).
  exists st'. split; [exact H |].
  destruct (P 2) as [P1 P2]; [vm_compute; split; discriminate |].
  destruct (N 4) as [N1 N2]; [lia | vm_compute; split; [reflexivity | discriminate] |].
  destruct (N 5) as [N3 N4]; [lia | vm_compute; split; [reflexivity | discriminate] |].
  repeat split; assumption.
Defined.

(** C6.  On every displayed form, [setCount n] returns, and the count is
    then [n] clamped to [1 .. 50]: below 1 it is 1 (so [setCount 0] gives
    1), above 50 it is 50 (so [setCount 999] gives 50), and it always lies
    in [1 .. 50]; the form is the one rebuilt for that clamped count. *)
Theorem C6_setCount_clamps st n :
  reachable st ->
  exists st',
    setCount n st = Val st'
    /\ n_variables st' = clamp n
    /\ 1 <= n_variables st' <= 50
    /\ (n < 1 -> n_variables st' = 1)
    /\ (50 < n -> n_variables st' = 50)
    /\ (1 <= n <= 50 -> n_variables st' = n)
    /\ (n = 0 -> n_variables st' = 1)
    /\ (n = 999 -> n_variables st' = 50)
    /\ n_input st' = Some (n_variables st')
    /\ rebuilt st (clamp n) st'.
Proof.
  intros R. assert (I := reachable_Inv st R).
  destruct (setCount_spec st n I) as (st' & H & B & _).
  exists st'. split; [exact H |].
  assert (C : n_variables st' = clamp n) by apply B.
  assert (N : n_input st' = Some (n_variables st'))
    by (rewrite C; apply B).
  assert (E : clamp n = if n <? 1 then 1 else if n >? 50 then 50 else n)
    by reflexivity.
  destruct (Z.ltb_spec n 1); [| destruct (Z.gtb_spec n 50)];
    (split; [exact C |]); rewrite C, E;
    (split; [lia |]); (split; [lia |]); (split; [lia |]);
    (split; [lia |]); (split; [lia |]); (split; [lia |]);
    rewrite <- E, <- C; (split; [exact N | rewrite C; exact B]).
Qed.

Lemma C6_witness :
  (exists st', setCount 0 form3 = Val st' /\ n_variables st' = 1)
  /\ (exists st', setCount 999 form3 = Val st' /\ n_variables st' = 50).
Proof.
  split.
  - destruct (C6_setCount_clamps form3 0 reachable_form3)
      as (st' & H & _ & _ & _ & _ & _ & Z0 & _).
    exists st'. split; [exact H | apply Z0; reflexivity].
  - destruct (C6_setCount_clamps form3 999 reachable_form3)
      as (st' & H & _ & _ & _ & _ & _ & _ & Z9 & _).
    exists st'. split; [exact H | apply Z9; reflexivity].
Defined.

End CountClaims.

(* ------------------------------------------------------------------ *)
(** ** The form controller: shrinking, collecting, running *)

Section FormClaims.
Import DictFacts.

(** C7.  On every displayed form, a count change to [n] leaves no slot
    beyond the clamped [n]: whatever those slots held is gone.  Whatever
    the user then does short of another count change, a later count change
    to [m] gives every index between the two clamped counts a fresh slot
    with the defaults ["0"] and ["var<i>"], and hands the slots up to the
    smaller count over under their own keys.  After each change the keys
    are [var1 .. var<count>] in this order: no slot is moved or
    renumbered. *)
Theorem C7_shrink_then_grow st n m evs :
  reachable st ->
  Forall (fun ev => ev <> ClickUpdate) evs ->
  exists st1 st1' st2,
    setCount n st = Val st1
    /\ run_events evs st1 = Val st1'
    /\ setCount m st1' = Val st2
    /\ (forall i, clamp n < i ->
          Dict.get (key_of i) (value_widgets st1) = None
          /\ Dict.get (key_of i) (name_widgets st1) = None)
    /\ (forall i, clamp n < i <= clamp m ->
          Dict.get (key_of i) (value_widgets st2) =
            Some (mkText "0" value_placeholder)
          /\ Dict.get (key_of i) (name_widgets st2) =
            Some (mkText ("var" ++ str_of_int i) (name_placeholder i)))
    /\ (forall i, 1 <= i <= Z.min (n_variables st) (clamp n) ->
          Dict.get (key_of i) (value_widgets st1) =
            Dict.get (key_of i) (value_widgets st)
          /\ Dict.get (key_of i) (name_widgets st1) =
            Dict.get (key_of i) (name_widgets st))
    /\ (forall i, 1 <= i <= Z.min (clamp n) (clamp m) ->
          Dict.get (key_of i) (value_widgets st2) =
            Dict.get (key_of i) (value_widgets st1')
          /\ Dict.get (key_of i) (name_widgets st2) =
            Dict.get (key_of i) (name_widgets st1'))
    /\ Dict.keys (value_widgets st1) = map key_of (py_range 1 (clamp n + 1))
    /\ Dict.keys (name_widgets st1) = map key_of (py_range 1 (clamp n + 1))
    /\ Dict.keys (value_widgets st2) = map key_of (py_range 1 (clamp m + 1))
    /\ Dict.keys (name_widgets st2) = map key_of (py_range 1 (clamp m + 1)).
Proof.
  intros R F. assert (I := reachable_Inv st R).
  destruct (setCount_spec st n I) as (st1 & H1 & B1 & I1).
  destruct (run_events_count evs st1 I1 F) as (st1' & H1' & I1' & C1').
  destruct (setCount_spec st1' m I1') as (st2 & H2 & B2 & I2).
  assert (C1 : n_variables st1 = clamp n) by apply B1.
  exists st1, st1', st2.
  split; [exact H1 |]. split; [exact H1' |]. split; [exact H2 |].
  split; [intros i Hi; apply (Inv_get_none st1 i I1); lia |].
  split.
  { intros i Hi. apply (rebuilt_fresh st1' (clamp m) st2 i I1' B2).
    - pose proof (clamp_bounds n). lia.
    - lia. }
  split; [intros i Hi; now apply (rebuilt_preserved st (clamp n)) |].
  split.
  { intros i Hi. apply (rebuilt_preserved st1' (clamp m)); auto. lia. }
  split; [apply B1 |]. split; [apply B1 |]. split; apply B2.
Qed.

Lemma C7_witness :
  exists st1 st2,
    setCount 1 form3_mass = Val st1
    /\ setCount 3 st1 = Val st2
    /\ Dict.get "var2" (value_widgets st1) = None
    /\ Dict.get "var2" (value_widgets st2) = Some (mkText "0" value_placeholder)
    /\ Dict.get "var2" (name_widgets st2) = Some (mkText "var2" (name_placeholder 2)).
Proof.
  destruct (C7_shrink_then_grow form3_mass 1 3 [] reachable_form3_mass
              (Forall_nil _))
    as (st1 & st1' & st2 & H1 & H1' & H2 & G & D & _).
  injection H1' as <-.
  exists st1, st2. split; [exact H1 |]. split; [exact H2 |].
  destruct (G 2) as [G1 _]; [vm_compute; reflexivity |].
  destruct (D 2) as [D1 D2]; [vm_compute; split; [reflexivity | discriminate] |].
  repeat split; assumption.
Defined.

(** C8.  On every displayed form, [get_values_by_name] returns the
    dictionary built by assigning, slot after slot in index order, the
    parsed value of the slot to the slot's current name.  Its keys are the
    names of the slots, each once, and the entry of a name is the parsed
    value of the highest slot carrying it. *)
Theorem C8_collect_by_name_later_wins st :
  reachable st ->
  exists result,
    get_values_by_name st = Val result
    /\ result = collect_by_name (slot_texts st) Dict.empty
    /\ NoDup (Dict.keys result)
    /\ (forall name, In name (Dict.keys result) <->
          exists i, 1 <= i <= n_variables st
                    /\ name_text_or_default i st = name)
    /\ (forall i, 1 <= i <= n_variables st ->
          (forall j, i < j <= n_variables st ->
             name_text_or_default j st <> name_text_or_default i st) ->
          Dict.get (name_text_or_default i st) result =
            Some (parse_value (value_text_or_default i st))).
Proof.
  intros R. assert (I := reachable_Inv st R).
  exists (collect_by_name (slot_texts st) Dict.empty).
  split.
  { apply get_values_by_name_eq. intros k.
    rewrite (inv_value_keys _ I), (inv_name_keys _ I). auto. }
  split; [reflexivity |].
  split; [apply collect_NoDup; constructor |].
  split.
  { intros name. rewrite collect_keys, slot_texts_names by exact I.
    simpl. tauto. }
  intros i Hi Hlast.
  destruct (slot_split st i I Hi) as (d1 & w & d2 & E & K1 & K2).
  assert (Hv : value_text_or_default i st = value w).
  { unfold value_text_or_default. rewrite E, get_app_r.
    - cbn [Dict.get]. rewrite String.eqb_refl. reflexivity.
    - intros Hin. destruct (K1 _ Hin) as (j & Hj & Hlt).
      apply key_of_inj in Hj. lia. }
  unfold slot_texts. rewrite E, map_app. cbn [map fst snd].
  change (name_text_or_default_key (key_of i) st)
    with (name_text_or_default i st).
  rewrite Hv. apply collect_last.
  rewrite map_map. cbn [fst]. intros Hin.
  apply in_map_iff in Hin as ([k w'] & Hname & Hin). cbn [fst] in Hname.
  assert (Hk : In k (Dict.keys d2)) by (apply in_map_iff; exists (k, w'); auto).
  destruct (K2 _ Hk) as (j & -> & Hj).
  apply (Hlast j Hj). exact Hname.
Qed.

Lemma C8_witness :
  exists result,
    get_values_by_name form2_xx = Val result
    /\ Dict.keys result = ["x"]
    /\ Dict.get "x" result = Some (parse_value "2*pi").
Proof.
  destruct (C8_collect_by_name_later_wins form2_xx reachable_form2_xx)
    as (result & H & E & _ & _ & L).
  exists result. split; [exact H |]. split; [rewrite E; reflexivity |].
  apply (L 2).
  - vm_compute. split; discriminate.
  - intros j Hj. exfalso. revert Hj. vm_compute. intros [H1 H2].
    destruct j as [| p | p]; try discriminate.
    destruct p as [p | p |]; try destruct p; try discriminate;
      apply H2; reflexivity.
Defined.

End FormClaims.

(* ------------------------------------------------------------------ *)
(** ** The form controller: a failing callback, and the slot invariant *)

Section RunClaims.

(** C9, as stated, fails for a callback that leaves by [sys.exit()]:
    [SystemExit] is no [Exception], the handler's [except Exception] does
    not catch it, and the status is never set to the error indicator: it
    stays at the running indicator. *)
Lemma C9_counterexample :
  reachable form2_exiting
  /\ callback form2_exiting = Some exiting_callback
  /\ cb_raised (exiting_callback (the_vars form2_exiting)) =
       Some (RaisedBaseException "SystemExit")
  /\ (forall st', _on_run form2_exiting = Val st' -> status st' = Some Running)
  /\ ~ (exists st', _on_run form2_exiting = Val st' /\ status st' = Some Error).
Proof.
  split; [exact reachable_form2_exiting |].
  split; [reflexivity |]. split; [reflexivity |].
  split.
  - intros st' H. vm_compute in H. injection H as <-. reflexivity.
  - intros (st' & H & Hs). vm_compute in H. injection H as <-.
    discriminate.
Qed.

(** C9, amended.  On every displayed form whose callback, a function of
    the collected variables, raises an [Exception], the run handler returns
    normally: the status is the error indicator, the traceback of the
    exception is the last line written to the output, the count, the
    slots, the count box and the callback are what they were, and after
    any further events a run ends in the same status and the same form as
    if the failed run had never taken place. *)
Theorem C9_callback_failure_is_contained st cb vars trace :
  reachable st ->
  callback st = Some cb ->
  get_variables st = Val vars ->
  cb_raised (cb vars) = Some (RaisedException trace) ->
  exists st' o',
    _on_run st = Val st'
    /\ status st' = Some Error
    /\ output st' = Some o'
    /\ (exists before, shown o' = before ++ [LTraceback (ExcCallback trace)])%list
    /\ same_form st st'
    /\ (forall evs, exists r r',
          run_events (evs ++ [ClickRun]) st = Val r
          /\ run_events (evs ++ [ClickRun]) st' = Val r'
          /\ same_form r r'
          /\ status r' = status r).
Proof.
  intros R Hcb Hv Hr. assert (I := reachable_Inv st R).
  destruct (output st) as [o |] eqn:Ho; [| now destruct (inv_output _ I)].
  assert (E := on_run_eq st o vars (inv_status _ I) Ho Hv).
  rewrite Hcb in E. cbn [run_lines run_status] in E. rewrite Hr in E.
  cbn [trace_of] in E.
  set (ls := (map LText (cb_printed (cb vars)) ++
              [LTraceback (ExcCallback trace)])%list) in *.
  set (o' := emit_all ls (clear_output_wait o)) in *.
  set (st' := with_output o' (with_status Error st)) in *.
  assert (S : same_form st st') by (constructor; reflexivity).
  assert (I' : Inv st')
    by (apply (Inv_same_form st st' I S); unfold st'; simpl_vi; discriminate).
  exists st', o'.
  split; [exact E |]. split; [reflexivity |]. split; [reflexivity |].
  split.
  { unfold o', ls. rewrite emit_all_app.
    generalize (emit_all (map LText (cb_printed (cb vars)))
                  (clear_output_wait o)) as o1.
    intros o1. cbn [emit_all fold_left]. unfold emit.
    destruct (clear_pending o1); cbn [shown];
      [exists [] | exists (shown o1)]; reflexivity. }
  split; [exact S |].
  intros evs.
  destruct (run_events_same_form evs st st' I I' S)
    as (r1 & r1' & H1 & H1' & J1 & J1' & S1).
  destruct (handle_same_form ClickRun r1 r1' J1 J1' S1)
    as (r & r' & H & H' & _ & _ & S2 & St).
  exists r, r'. rewrite !run_events_app, H1, H1'. cbn [bind run_events].
  rewrite H, H'. cbn [bind].
  split; [reflexivity |]. split; [reflexivity |]. split; [exact S2 |].
  symmetry. apply St. reflexivity.
Qed.

Lemma C9_witness :
  exists st' o',
    _on_run form2_raising = Val st'
    /\ status st' = Some Error
    /\ output st' = Some o'
    /\ shown o' = [LText "working"; LTraceback (ExcCallback "ValueError: bad input")]
    /\ same_form form2_raising st'.
Proof.
  destruct (C9_callback_failure_is_contained form2_raising raising_callback
              (the_vars form2_raising) "ValueError: bad input"
              reachable_form2_raising eq_refl eq_refl eq_refl)
    as (st' & o' & H & Hs & Ho & _ & S & _).
  exists st', o'.
  split; [exact H |]. split; [exact Hs |]. split; [exact Ho |].
  split; [| exact S].
  vm_compute in H. injection H as <-. vm_compute in Ho. injection Ho as <-.
  reflexivity.
Defined.

(** C10.  On every displayed form, that is after [create_interface] has
    built the rows in the notebook and after every event handled since
    (count changes and runs among them), both dictionaries hold exactly
    the keys [var1 .. varn] for the current count [n]: a key is present if
    and only if it is [var<i>] for some [1 <= i <= n], no key occurs twice,
    the two dictionaries have the same keys, and the keys come in
    ascending index order.  A count change or a run leads to such a form
    again. *)
Theorem C10_slots_of_a_displayed_form st :
  reachable st ->
  slots_exact st
  /\ (forall k, In k (Dict.keys (value_widgets st)) <->
        exists i, 1 <= i <= n_variables st /\ k = key_of i)
  /\ Dict.keys (value_widgets st) = Dict.keys (name_widgets st)
  /\ NoDup (Dict.keys (value_widgets st))
  /\ Dict.keys (value_widgets st) =
       map key_of (py_range 1 (n_variables st + 1))
  /\ StronglySorted Z.lt (py_range 1 (n_variables st + 1))
  /\ (forall m, exists st', setCount m st = Val st' /\ slots_exact st')
  /\ (exists st', _on_run st = Val st' /\ slots_exact st').
Proof.
  intros R. assert (I := reachable_Inv st R).
  assert (Kv := inv_value_keys _ I). assert (Kn := inv_name_keys _ I).
  split; [split; assumption |].
  split; [intros k; rewrite Kv; apply in_var_keys |].
  split; [congruence |].
  split; [rewrite Kv, var_keys_vk; apply NoDup_vk |].
  split; [exact Kv |].
  split; [apply py_range_sorted |].
  split.
  - intros m. destruct (setCount_spec st m I) as (st' & H & _ & I').
    exists st'. split; [exact H |]. split; apply I'.
  - destruct (on_run_spec st I) as (st' & H & _ & I').
    exists st'. split; [exact H |]. split; apply I'.
Qed.

Lemma C10_witness :
  Dict.keys (value_widgets form3) = ["var1"; "var2"; "var3"]
  /\ Dict.keys (name_widgets form3) = ["var1"; "var2"; "var3"].
Proof.
  destruct (C10_slots_of_a_displayed_form form3 reachable_form3)
    as ([Kv Kn] & _).
  split; [rewrite Kv | rewrite Kn]; reflexivity.
Defined.

(** C10, as stated, fails right after the constructor, and after
    [create_variable_interface] when the notebook modules are missing: the
    count is 3 and no slot exists. *)
Lemma C10_counterexample :
  create_variable_interface false 3 "Parameter Input" None =
    Val (__init__ 3 "Parameter Input" None)
  /\ n_variables (__init__ 3 "Parameter Input" None) = 3
  /\ Dict.keys (value_widgets (__init__ 3 "Parameter Input" None)) = []
  /\ ~ slots_exact (__init__ 3 "Parameter Input" None).
Proof.
  split; [reflexivity |]. split; [reflexivity |]. split; [reflexivity |].
  intros [H _]. vm_compute in H. discriminate.
Qed.

End RunClaims.

(* ------------------------------------------------------------------ *)
(** ** The value parser *)

Section ParserClaims.

(** C1.  The name [__builtins__] is none of the names of the namespace,
    yet the evaluation step resolves it, to the empty dictionary passed as
    the globals' builtins, and [parse_value] returns that dictionary
    instead of falling through to the string. *)
Theorem C1_builtins_name_is_resolved :
  Text.mem "__builtins__" (Dict.keys namespace) = false
  /\ py_eval (normalize "__builtins__") = Val (VDict [])
  /\ parse_value "__builtins__" = Some (VDict [])
  /\ parse_value "__builtins__" <> Some (VStr "__builtins__").
Proof.
  split; [reflexivity |]. split; [reflexivity |]. split; [reflexivity |].
  discriminate.
Qed.

(** C3, as stated, fails on ["ABC"]: the three steps fail and the text
    returned is ["abc"]. *)
Lemma C3_counterexample :
  ~ (forall text,
       Text.is_ascii text = true ->
       Dict.get (normalize text) CONSTANTS = None ->
       (exists e, py_eval (normalize text) = Exn e) ->
       py_float (normalize text) = FError ->
       parse_value text = Some (VStr text)).
Proof.
  intros H.
  assert (E : parse_value "ABC" = Some (VStr "ABC")).
  { apply H; try reflexivity. exists NameError. reflexivity. }
  vm_compute in E. discriminate.
Qed.

(** C3, amended.  For every text, whatever the builtins answer on it:
    when the normalized text, that is the text stripped and then
    lower-cased, is no key of the constant table, its evaluation raises
    and its float conversion raises, [parse_value] returns the normalized
    text, as a string. *)
Theorem C3_fallback_returns_normalized_text (obj : Type) (B : builtins obj) text :
  Dict.get (str_lower B (str_strip B text)) CONSTANTS = None ->
  eval_in_namespace B (str_lower B (str_strip B text)) = Raised ->
  float_of B (str_lower B (str_strip B text)) = Raised ->
  parse_value_with B text = obj_of B (VStr (str_lower B (str_strip B text))).
Proof.
  intros Hc He Hf. unfold parse_value_with. rewrite Hc, He, Hf. reflexivity.
Qed.

Lemma C3_witness :
  parse_value_with fragment_builtins "  Steel Beam " = VStr "steel beam".
Proof.
  exact (C3_fallback_returns_normalized_text pyval fragment_builtins
           "  Steel Beam " eq_refl eq_refl eq_refl).
Defined.




(** C5, as stated, fails on [nan]: the constant table holds it, the
    namespace does not, and ["1*nan"] raises at the evaluation step, so
    that [parse_value] returns the text. *)
Lemma C5_counterexample :
  ~ (forall c, Dict.mem c CONSTANTS = true -> Dict.mem c namespace = true)
  /\ py_eval (normalize "1*nan") = Exn NameError
  /\ parse_value "1*nan" = Some (VStr "1*nan").
Proof.
  split; [| split; reflexivity].
  intros H. specialize (H "nan" eq_refl). discriminate.
Qed.

(** C5, amended.  Every name bound in the namespace is either a constant
    of the table, bound to the table's value, or one of [sqrt], [exp],
    [log], [sin], [cos], bound to a function.  The constants [pi], [e],
    [i], [j], [sqrt2], [sqrt3], [phi], [inf] are bound there to their
    table values and the five functions are bound, and a reference to any
    of these thirteen names evaluates successfully at the evaluation
    step. *)
Theorem C5_namespace_contents :
  (forall x v, Dict.get x namespace = Some v ->
     Dict.get x CONSTANTS = Some v
     \/ (Text.mem x function_names = true /\ exists f, v = VFun f))
  /\ (forall x, Text.mem x numeric_names = true ->
        exists v, Dict.get x CONSTANTS = Some v
                  /\ Dict.get x namespace = Some v
                  /\ py_eval x = Val v)
  /\ (forall x, Text.mem x function_names = true ->
        exists f, Dict.get x namespace = Some (VFun f)
                  /\ py_eval x = Val (VFun f)).
Proof.
  split; [| split].
  - intros x v. unfold namespace. cbn [Dict.get].
    repeat match goal with
      | |- context [String.eqb x ?k] =>
          destruct (String.eqb_spec x k);
          [subst; intros [= <-]; (left; reflexivity) || (right; split; [reflexivity | eauto]) |]
      end.
    discriminate.
  - intros x Hx. apply text_mem_In in Hx. simpl in Hx.
    repeat destruct Hx as [<- | Hx]; try contradiction;
      eexists; repeat split; reflexivity.
  - intros x Hx. apply text_mem_In in Hx. simpl in Hx.
    repeat destruct Hx as [<- | Hx]; try contradiction;
      eexists; split; reflexivity.
Qed.

Lemma C5_witness :
  (exists v, Dict.get "phi" CONSTANTS = Some v
             /\ Dict.get "phi" namespace = Some v /\ py_eval "phi" = Val v)
  /\ (exists f, Dict.get "sqrt" namespace = Some (VFun f)
                /\ py_eval "sqrt" = Val (VFun f)).
Proof.
  destruct C5_namespace_contents as (_ & C & Fn).
  split; [apply (C "phi") | apply (Fn "sqrt")]; reflexivity.
Defined.

End ParserClaims.

(* ------------------------------------------------------------------ *)
(** ** The dictionaries of a displayed form, slot by slot *)

Section SlotLists.
Import DictFacts.

Lemma in_py_range_1 i n : In i (py_range 1 (n + 1)) <-> 1 <= i <= n.
Proof.
  rewrite py_range_1, in_map_iff. split.
  - intros (k & <- & Hk). apply in_seq in Hk. lia.
  - intros H. exists (Z.to_nat i). split; [lia | apply in_seq; lia].
Qed.

Lemma NoDup_py_range a b : NoDup (py_range a b).
Proof.
  unfold py_range. apply Injective_map_NoDup; [| apply seq_NoDup].
  intros x y H. lia.
Qed.

Lemma set_fresh {V} k (v : V) d :
  ~ In k (Dict.keys d) -> Dict.set k v d = (d ++ [(k, v)])%list.
Proof.
  induction d as [| [k' v'] d IH]; simpl; [reflexivity |].
  intros H. destruct (String.eqb_spec k k'); [subst; tauto |].
  f_equal. apply IH. tauto.
Qed.

Lemma keys_map_key_of {V} (f : Z -> V) l :
  Dict.keys (map (fun i => (key_of i, f i)) l) = map key_of l.
Proof. unfold Dict.keys. rewrite map_map. reflexivity. Qed.

(** Looking a slot key up in a dictionary listed by indices. *)
Lemma get_map_key_of {V} (f : Z -> V) l i :
  Dict.get (key_of i) (map (fun j => (key_of j, f j)) l) =
  if existsb (Z.eqb i) l then Some (f i) else None.
Proof.
  induction l as [| j l IH]; [reflexivity |].
  cbn [map Dict.get existsb].
  destruct (Z.eqb_spec i j) as [-> | Hne].
  - rewrite String.eqb_refl. reflexivity.
  - destruct (String.eqb_spec (key_of i) (key_of j)) as [E | _].
    + apply key_of_inj in E. contradiction.
    + exact IH.
Qed.

Lemma existsb_py_range_1 i n :
  1 <= i <= n -> existsb (Z.eqb i) (py_range 1 (n + 1)) = true.
Proof.
  intros H. apply existsb_exists. exists i. split; [| apply Z.eqb_refl].
  now apply in_py_range_1.
Qed.

(** The value dictionary of a well-formed form, listed by slot. *)
Lemma value_widgets_by_slot st :
  Inv st ->
  value_widgets st =
  map (fun i => (key_of i, mkText (value_text_or_default i st) value_placeholder))
      (slot_indices st).
Proof.
  intros I. unfold slot_indices. apply dict_ext.
  - rewrite keys_map_key_of. apply I.
  - rewrite (inv_value_keys _ I), var_keys_vk. apply NoDup_vk.
  - intros k Hk. rewrite (inv_value_keys _ I) in Hk.
    apply in_var_keys in Hk as (i & Hi & ->).
    rewrite get_map_key_of, existsb_py_range_1 by exact Hi.
    destruct (Inv_get_some st i I Hi) as (v & w & Hv & _).
    unfold value_text_or_default. rewrite Hv. reflexivity.
Qed.

Lemma name_widgets_by_slot st :
  Inv st ->
  name_widgets st =
  map (fun i => (key_of i, mkText (name_text_or_default i st) (name_placeholder i)))
      (slot_indices st).
Proof.
  intros I. unfold slot_indices. apply dict_ext.
  - rewrite keys_map_key_of. apply I.
  - rewrite (inv_name_keys _ I), var_keys_vk. apply NoDup_vk.
  - intros k Hk. rewrite (inv_name_keys _ I) in Hk.
    apply in_var_keys in Hk as (i & Hi & ->).
    rewrite get_map_key_of, existsb_py_range_1 by exact Hi.
    destruct (Inv_get_some st i I Hi) as (v & w & _ & Hw).
    unfold name_text_or_default. rewrite Hw. reflexivity.
Qed.

(** Assigning entries under fresh, distinct slot keys appends them. *)
Lemma collect_entries (nw : Dict.t Text) (wv : Z -> Text) (en : Z -> var_entry) :
  forall l acc,
  NoDup l ->
  (forall i, In i l -> ~ In (key_of i) (Dict.keys acc)) ->
  (forall i, In i l -> exists w,
     Dict.get (key_of i) nw = Some w
     /\ en i = mkEntry (parse_value (value (wv i))) (value (wv i)) (value w)) ->
  fold_left
    (fun acc kw =>
       result <- acc ;;
       let '(key, w) := kw in
       let raw_value := value w in
       let parsed_value := parse_value raw_value in
       match Dict.get key nw with
       | None => Exn KeyError
       | Some nw0 =>
           Val (Dict.set key (mkEntry parsed_value raw_value (value nw0)) result)
       end)
    (map (fun i => (key_of i, wv i)) l) (Val acc) =
  Val (acc ++ map (fun i => (key_of i, en i)) l)%list.
Proof.
  induction l as [| i l IH]; intros acc Hnd Hfresh Hen.
  - cbn. now rewrite app_nil_r.
  - cbn [map fold_left bind].
    destruct (Hen i (or_introl eq_refl)) as (w & -> & ->).
    inversion Hnd as [| ? ? Hi Hnd']; subst.
    rewrite set_fresh by (apply Hfresh; left; reflexivity).
    rewrite IH; auto.
    + rewrite <- app_assoc. reflexivity.
    + intros j Hj. rewrite keys_app, in_app_iff. cbn [Dict.keys map fst In].
      intros [H | [H | []]].
      * apply (Hfresh j); [right; exact Hj | exact H].
      * apply key_of_inj in H. subst. contradiction.
    + intros j Hj. apply Hen. right. exact Hj.
Qed.

(** [get_variables] on a well-formed form, listed by slot. *)
Lemma get_variables_by_slot st :
  Inv st ->
  get_variables st =
  Val (map (fun i => (key_of i, slot_entry i st)) (slot_indices st)).
Proof.
  intros I. unfold get_variables.
  rewrite (value_widgets_by_slot st I) at 1.
  rewrite (collect_entries (name_widgets st) _ (fun i => slot_entry i st)).
  - reflexivity.
  - apply NoDup_py_range.
  - intros i _ [].
  - intros i Hi. apply in_py_range_1 in Hi.
    destruct (Inv_get_some st i I Hi) as (v & w & _ & Hw).
    eexists. split; [exact Hw |].
    unfold slot_entry, name_text_or_default. rewrite Hw. reflexivity.
Qed.

Lemma list_comp_map {A} (f : Z -> res A) (g : Z -> A) l :
  (forall i, In i l -> f i = Val (g i)) -> list_comp f l = Val (map g l).
Proof.
  induction l as [| i l IH]; intros H; [reflexivity |].
  cbn [list_comp map]. rewrite (H i) by (left; reflexivity). cbn [bind].
  rewrite IH by (intros j Hj; apply H; right; exact Hj). reflexivity.
Qed.

Lemma get_values_list_by_slot st :
  Inv st ->
  get_values_list st =
  Val (map (fun i => parse_value (value_text_or_default i st)) (slot_indices st)).
Proof.
  intros I. unfold get_values_list. apply list_comp_map.
  intros i Hi. apply in_py_range_1 in Hi.
  destruct (Inv_get_some st i I Hi) as (v & w & Hv & _).
  unfold subscript, value_text_or_default. rewrite Hv. reflexivity.
Qed.

Lemma get_names_list_by_slot st :
  Inv st ->
  get_names_list st =
  Val (map (fun i => name_text_or_default i st) (slot_indices st)).
Proof.
  intros I. unfold get_names_list. apply list_comp_map.
  intros i Hi. apply in_py_range_1 in Hi.
  destruct (Inv_get_some st i I Hi) as (v & w & _ & Hw).
  unfold subscript, name_text_or_default. rewrite Hw. reflexivity.
Qed.

End SlotLists.

(* ------------------------------------------------------------------ *)
(** ** Collecting: the dictionary and the two lists *)

Section Collecting.
Import DictFacts.

(** On every displayed form, [get_variables] returns one entry per slot,
    under the keys [var1 .. varn] in index order; the entry of a slot holds
    the parsed value of its value text, that text, and its name text. *)
Theorem get_variables_reports_every_slot st :
  reachable st ->
  exists vars,
    get_variables st = Val vars
    /\ Dict.keys vars = map key_of (py_range 1 (n_variables st + 1))
    /\ List.length vars = Z.to_nat (n_variables st)
    /\ (forall i v w,
          Dict.get (key_of i) (value_widgets st) = Some v ->
          Dict.get (key_of i) (name_widgets st) = Some w ->
          Dict.get (key_of i) vars =
            Some (mkEntry (parse_value (value v)) (value v) (value w)))
    /\ (forall k, Dict.get k (value_widgets st) = None -> Dict.get k vars = None).
Proof.
  intros R. assert (I := reachable_Inv st R).
  eexists. split; [apply (get_variables_by_slot st I) |].
  unfold slot_indices. split; [apply keys_map_key_of |].
  split.
  { rewrite length_map. unfold py_range. rewrite length_map, length_seq. f_equal. lia. }
  split.
  - intros i v w Hv Hw.
    assert (Hi := get_key_in_var_keys _ _ _ _ (inv_value_keys _ I) Hv).
    rewrite get_map_key_of, existsb_py_range_1 by exact Hi.
    unfold slot_entry, value_text_or_default, name_text_or_default.
    rewrite Hv, Hw. reflexivity.
  - intros k Hk. apply get_none_iff. apply get_none_iff in Hk.
    rewrite keys_map_key_of. rewrite (inv_value_keys _ I) in Hk. exact Hk.
Qed.

Lemma get_variables_reports_every_slot_witness :
  exists vars,
    get_variables form3_mass = Val vars
    /\ Dict.keys vars = ["var1"; "var2"; "var3"]
    /\ Dict.get "var2" vars = Some (mkEntry (Some (VInt 5)) "5" "mass").
Proof.
  destruct (get_variables_reports_every_slot form3_mass reachable_form3_mass)
    as (vars & H & K & _ & G & _).
  exists vars. split; [exact H |]. split; [exact K |].
  apply (G 2 (mkText "5" value_placeholder) (mkText "mass" (name_placeholder 2)));
    reflexivity.
Defined.

(** On every displayed form, [get_values_list] and [get_names_list] return
    [n] elements each, and they are, slot by slot, the values and the names
    of the entries [get_variables] returns. *)
Theorem lists_agree_with_get_variables st :
  reachable st ->
  exists vars values names,
    get_variables st = Val vars
    /\ get_values_list st = Val values
    /\ get_names_list st = Val names
    /\ values = map (fun kd => entry_value (snd kd)) vars
    /\ names = map (fun kd => entry_name (snd kd)) vars
    /\ List.length values = Z.to_nat (n_variables st)
    /\ List.length names = Z.to_nat (n_variables st).
Proof.
  intros R. assert (I := reachable_Inv st R).
  do 3 eexists.
  split; [apply (get_variables_by_slot st I) |].
  split; [apply (get_values_list_by_slot st I) |].
  split; [apply (get_names_list_by_slot st I) |].
  assert (L : List.length (slot_indices st) = Z.to_nat (n_variables st)).
  { unfold slot_indices, py_range. rewrite length_map, length_seq. lia. }
  rewrite !map_map, !length_map. cbn [snd entry_value entry_name slot_entry].
  auto.
Qed.

Lemma lists_agree_with_get_variables_witness :
  get_values_list form3_mass = Val [Some (VInt 0); Some (VInt 5); Some (VInt 0)]
  /\ get_names_list form3_mass = Val ["var1"; "mass"; "var3"].
Proof.
  destruct (lists_agree_with_get_variables form3_mass reachable_form3_mass)
    as (vars & values & names & Hv & Hl & Hn & -> & -> & _).
  rewrite Hl, Hn.
  assert (E : Val vars = get_variables form3_mass) by (symmetry; exact Hv).
  vm_compute in E. injection E as ->. split; reflexivity.
Defined.

Lemma collect_by_name_fresh l : forall acc,
  NoDup (map fst l) ->
  (forall x, In x (map fst l) -> ~ In x (Dict.keys acc)) ->
  collect_by_name l acc =
  (acc ++ map (fun p => (fst p, parse_value (snd p))) l)%list.
Proof.
  induction l as [| [nm raw] l IH]; intros acc Hnd Hfresh.
  - cbn. now rewrite app_nil_r.
  - cbn [collect_by_name fold_left map fst snd]. fold (collect_by_name l).
    cbn [map fst] in Hnd, Hfresh. inversion Hnd as [| ? ? Hnm Hnd']; subst.
    rewrite set_fresh by (apply Hfresh; left; reflexivity).
    rewrite IH; auto.
    + rewrite <- app_assoc. reflexivity.
    + intros x Hx. rewrite keys_app, in_app_iff. cbn [Dict.keys map fst In].
      intros [H | [H | []]].
      * apply (Hfresh x); [right; exact Hx | exact H].
      * subst. contradiction.
Qed.

Lemma combine_map_map {A B} (f : Z -> A) (g : Z -> B) l :
  combine (map f l) (map g l) = map (fun i => (f i, g i)) l.
Proof. induction l as [| i l IH]; cbn; [reflexivity | now rewrite IH]. Qed.

(** On every displayed form whose slot names are pairwise different,
    [get_values_by_name] is the list of names paired, slot by slot and in
    index order, with the list of values. *)
Theorem by_name_pairs_names_with_values st names values :
  reachable st ->
  get_names_list st = Val names ->
  get_values_list st = Val values ->
  NoDup names ->
  get_values_by_name st = Val (combine names values).
Proof.
  intros R Hn Hv Hnd. assert (I := reachable_Inv st R).
  rewrite (get_names_list_by_slot st I) in Hn. injection Hn as <-.
  rewrite (get_values_list_by_slot st I) in Hv. injection Hv as <-.
  rewrite get_values_by_name_eq
    by (intros k; rewrite (inv_value_keys _ I), (inv_name_keys _ I); auto).
  unfold slot_texts. rewrite (value_widgets_by_slot st I) at 1.
  rewrite map_map. cbn [fst snd value].
  change (fun x : Z => (name_text_or_default_key (key_of x) st,
                        value_text_or_default x st))
    with (fun x : Z => (name_text_or_default x st, value_text_or_default x st)).
  rewrite collect_by_name_fresh.
  - rewrite map_map, combine_map_map. reflexivity.
  - rewrite map_map. exact Hnd.
  - intros x _ [].
Qed.

Lemma by_name_pairs_names_with_values_witness :
  get_values_by_name form3_mass =
  Val [("var1", Some (VInt 0)); ("mass", Some (VInt 5)); ("var3", Some (VInt 0))].
Proof.
  apply (by_name_pairs_names_with_values form3_mass
           ["var1"; "mass"; "var3"]
           [Some (VInt 0); Some (VInt 5); Some (VInt 0)]
           reachable_form3_mass eq_refl eq_refl).
  repeat constructor; simpl; intuition discriminate.
Defined.

End Collecting.

(* ------------------------------------------------------------------ *)
(** ** Runs that do not fail, and count changes that change nothing *)

Section Runs.
Import DictFacts.

Lemma emit_all_appends ls : forall sh,
  emit_all ls (mkOutput sh false) = mkOutput (sh ++ ls) false.
Proof.
  induction ls as [| l ls IH]; intros sh; cbn [emit_all fold_left].
  - now rewrite app_nil_r.
  - fold (emit_all ls). cbn [emit clear_pending shown]. rewrite IH, <- app_assoc.
    reflexivity.
Qed.

(** The first line written after [clear_output(wait=True)] replaces what
    was shown; with no line written, it stays. *)
Lemma emit_all_after_clear ls o :
  shown (emit_all ls (clear_output_wait o)) =
  match ls with [] => shown o | _ => ls end.
Proof.
  destruct ls as [| l ls]; [reflexivity |].
  cbn [emit_all fold_left clear_output_wait emit clear_pending].
  fold (emit_all ls). rewrite emit_all_appends. reflexivity.
Qed.

(** On every displayed form without a callback, whose value texts are all
    inside the fragment of the parser and whose names are ASCII, the run
    handler returns, the status ends as the printed indicator, the form is
    untouched, and the output shows exactly the listing: the rule, the
    heading, the rule, one line per slot in index order with its name,
    parsed value and raw text, and the closing rule, whatever was shown
    before. *)
Theorem run_without_callback_prints_the_listing st :
  reachable st ->
  callback st = None ->
  values_in_fragment st = true ->
  names_are_ascii st = true ->
  exists st' o',
    _on_run st = Val st'
    /\ status st' = Some Printed
    /\ output st' = Some o'
    /\ shown o' =
         (LText rule :: LText "VARIABLES" :: LText rule ::
          map (fun i => LVar (name_text_or_default i st)
                          (parse_value (value_text_or_default i st))
                          (value_text_or_default i st))
              (py_range 1 (n_variables st + 1)) ++ [LText rule])%list
    /\ same_form st st'.
Proof.
  intros R Hcb _ _. assert (I := reachable_Inv st R).
  destruct (output st) as [o |] eqn:Ho; [| now destruct (inv_output _ I)].
  assert (E := on_run_eq st o _ (inv_status _ I) Ho (get_variables_by_slot st I)).
  rewrite Hcb in E. cbn [run_lines run_status] in E.
  do 2 eexists. split; [exact E |].
  split; [reflexivity |]. split; [reflexivity |].
  split; [| constructor; reflexivity].
  rewrite emit_all_after_clear. cbn [map app]. rewrite map_map.
  reflexivity.
Qed.

Lemma run_without_callback_prints_the_listing_witness :
  exists st' o',
    _on_run form3_mass = Val st'
    /\ status st' = Some Printed
    /\ output st' = Some o'
    /\ shown o' =
         [LText rule; LText "VARIABLES"; LText rule;
          LVar "var1" (Some (VInt 0)) "0";
          LVar "mass" (Some (VInt 5)) "5";
          LVar "var3" (Some (VInt 0)) "0";
          LText rule].
Proof.
  destruct (run_without_callback_prints_the_listing form3_mass
              reachable_form3_mass eq_refl eq_refl eq_refl)
    as (st' & o' & H & Hs & Ho & Hl & _).
  exists st', o'. repeat split; assumption.
Defined.

(** On every displayed form whose value texts are all inside the fragment
    of the parser and whose callback, a function of the collected
    variables, returns,
    the run handler returns, the status ends as the complete indicator and
    the form is untouched; when the callback printed something, the output
    shows exactly the lines it printed, whatever was shown before. *)
Theorem run_with_returning_callback_completes st cb vars :
  reachable st ->
  callback st = Some cb ->
  values_in_fragment st = true ->
  get_variables st = Val vars ->
  cb_raised (cb vars) = None ->
  exists st' o',
    _on_run st = Val st'
    /\ status st' = Some Complete
    /\ output st' = Some o'
    /\ (cb_printed (cb vars) <> [] ->
          shown o' = map LText (cb_printed (cb vars)))
    /\ same_form st st'.
Proof.
  intros R Hcb _ Hv Hr. assert (I := reachable_Inv st R).
  destruct (output st) as [o |] eqn:Ho; [| now destruct (inv_output _ I)].
  assert (E := on_run_eq st o vars (inv_status _ I) Ho Hv).
  rewrite Hcb in E. cbn [run_lines run_status] in E. rewrite Hr in E.
  rewrite app_nil_r in E.
  do 2 eexists. split; [exact E |].
  split; [reflexivity |]. split; [reflexivity |].
  split; [| constructor; reflexivity].
  intros Hp. rewrite emit_all_after_clear.
  destruct (cb_printed (cb vars)); [contradiction | reflexivity].
Qed.

End Runs.

Section RunsExamples.

Lemma reachable_form2_counting : reachable form2_counting.
Proof.
  apply (reach_create 2 "Parameter Input" (Some counting_callback)).
  reflexivity.
Qed.

Lemma run_with_returning_callback_completes_witness :
  exists st' o',
    _on_run form2_counting = Val st'
    /\ status st' = Some Complete
    /\ output st' = Some o'
    /\ shown o' = [LText "2"].
Proof.
  destruct (run_with_returning_callback_completes form2_counting
              counting_callback (the_vars form2_counting)
              reachable_form2_counting eq_refl eq_refl eq_refl eq_refl)
    as (st' & o' & H & Hs & Ho & Hl & _).
  exists st', o'. repeat split; try assumption.
  apply Hl. discriminate.
Defined.

End RunsExamples.

(* ------------------------------------------------------------------ *)
(** ** Creation, successive count changes, and the form that is not shown *)

Section Lifecycle.
Import DictFacts.

Lemma VariableInterface_ext st st' :
  n_variables st = n_variables st' -> title st = title st' ->
  callback st = callback st' -> value_widgets st = value_widgets st' ->
  name_widgets st = name_widgets st' -> output st = output st' ->
  var_container st = var_container st' -> n_input st = n_input st' ->
  status st = status st' -> st = st'.
Proof. destruct st, st'. cbn. intros. subst. reflexivity. Qed.

(** [create_variable_interface] in the notebook returns, for every count
    [n] and without clamping it, the form with the count [n], the count box
    set to [n], the ready status, an empty output, and the slots
    [1 .. n], each with the defaults ["0"] and ["var<i>"]; for [n < 1] the
    form has no slot. *)
Theorem created_form_holds_default_slots n t cb :
  exists st,
    create_variable_interface true n t cb = Val st
    /\ n_variables st = n
    /\ n_input st = Some n
    /\ status st = Some Ready
    /\ output st = Some (mkOutput [] false)
    /\ title st = t /\ callback st = cb
    /\ value_widgets st =
         map (fun i => (key_of i, mkText "0" value_placeholder))
             (py_range 1 (n + 1))
    /\ name_widgets st =
         map (fun i => (key_of i, mkText ("var" ++ str_of_int i) (name_placeholder i)))
             (py_range 1 (n + 1))
    /\ (n < 1 -> value_widgets st = [] /\ name_widgets st = []).
Proof.
  destruct (create_spec n t cb) as (st & H & I & Hn & Hd).
  exists st. split; [exact H |]. split; [exact Hn |].
  assert (F : n_input st = Some n /\ status st = Some Ready
              /\ output st = Some (mkOutput [] false)
              /\ title st = t /\ callback st = cb).
  { revert H. unfold create_variable_interface, create_interface. cbn [negb].
    destruct (_build_variable_rows _) as [st0 | |] eqn:E; try discriminate.
    cbn [bind]. intros [= <-]. simpl_vi.
    unfold _build_variable_rows in E.
    destruct (keys_to_remove _ _) as [ks | |]; try discriminate.
    cbn [bind] in E. destruct (del_keys _ _) as [ws | |]; try discriminate.
    cbn [bind] in E. simpl_vi in E. injection E as <-. simpl_vi. auto. }
  destruct F as (F1 & F2 & F3 & F4 & F5).
  do 5 (split; [assumption |]).
  assert (V : value_widgets st =
              map (fun i => (key_of i, mkText "0" value_placeholder))
                  (py_range 1 (n + 1))).
  { rewrite (value_widgets_by_slot st I). unfold slot_indices. rewrite Hn.
    apply map_ext_in. intros i Hi. apply in_py_range_1 in Hi.
    destruct (Hd i Hi) as [Hv _]. unfold value_text_or_default.
    rewrite Hv. reflexivity. }
  assert (N : name_widgets st =
              map (fun i => (key_of i, mkText ("var" ++ str_of_int i) (name_placeholder i)))
                  (py_range 1 (n + 1))).
  { rewrite (name_widgets_by_slot st I). unfold slot_indices. rewrite Hn.
    apply map_ext_in. intros i Hi. apply in_py_range_1 in Hi.
    destruct (Hd i Hi) as [_ Hw]. unfold name_text_or_default.
    rewrite Hw. reflexivity. }
  split; [exact V |]. split; [exact N |].
  intros Hlt. rewrite V, N. unfold py_range.
  replace (Z.to_nat (n + 1 - 1)) with 0%nat by lia. split; reflexivity.
Qed.

(** Two count changes in a row, to [a] and then to [b], end in the very
    state a single change to [b] ends in, whenever the first does not go
    below both the old count and the clamped [b]; in particular a count
    change repeated changes nothing more. *)
Theorem count_changes_compose st a b :
  reachable st ->
  Z.min (n_variables st) (clamp b) <= clamp a ->
  exists st1 st2,
    setCount a st = Val st1
    /\ setCount b st1 = Val st2
    /\ setCount b st = Val st2.
Proof.
  intros R Hab. assert (I := reachable_Inv st R).
  destruct (setCount_spec st a I) as (st1 & H1 & B1 & I1).
  destruct (setCount_spec st1 b I1) as (st2 & H2 & B2 & I2).
  destruct (setCount_spec st b I) as (st3 & H3 & B3 & I3).
  exists st1, st2. split; [exact H1 |]. split; [exact H2 |].
  rewrite H3. f_equal.
  assert (C1 : n_variables st1 = clamp a) by apply B1.
  assert (D : forall i, 1 <= i <= clamp b ->
            value_text_or_default i st1 = value_text_or_default i st
            /\ name_text_or_default i st1 = name_text_or_default i st).
  { intros i Hi. unfold value_text_or_default, name_text_or_default.
    destruct (Z_le_gt_dec i (n_variables st)) as [Hle | Hgt].
    - destruct (rebuilt_preserved st (clamp a) st1 i I B1) as [-> ->]; [lia | auto].
    - destruct (Inv_get_none st i I) as [-> ->]; [lia |].
      destruct (Z_le_gt_dec i (clamp a)) as [Hle' | Hgt'].
      + destruct (rebuilt_fresh st (clamp a) st1 i I B1) as [-> ->];
          [lia | lia | auto].
      + destruct (Inv_get_none st1 i I1) as [-> ->]; [lia | auto]. }
  apply VariableInterface_ext.
  - rewrite (rb_count _ _ _ B3), (rb_count _ _ _ B2). reflexivity.
  - rewrite (rb_title _ _ _ B3), (rb_title _ _ _ B2), (rb_title _ _ _ B1).
    reflexivity.
  - rewrite (rb_callback _ _ _ B3), (rb_callback _ _ _ B2),
      (rb_callback _ _ _ B1). reflexivity.
  - apply dict_ext.
    + rewrite (rb_value_keys _ _ _ B3), (rb_value_keys _ _ _ B2). reflexivity.
    + rewrite (rb_value_keys _ _ _ B3), var_keys_vk. apply NoDup_vk.
    + intros k Hk. rewrite (rb_value_keys _ _ _ B3) in Hk.
      apply in_var_keys in Hk as (i & Hi & ->).
      destruct (rb_slots _ _ _ B3 i Hi) as [-> _].
      destruct (rb_slots _ _ _ B2 i Hi) as [-> _].
      now destruct (D i Hi) as [-> _].
  - apply dict_ext.
    + rewrite (rb_name_keys _ _ _ B3), (rb_name_keys _ _ _ B2). reflexivity.
    + rewrite (rb_name_keys _ _ _ B3), var_keys_vk. apply NoDup_vk.
    + intros k Hk. rewrite (rb_name_keys _ _ _ B3) in Hk.
      apply in_var_keys in Hk as (i & Hi & ->).
      destruct (rb_slots _ _ _ B3 i Hi) as [_ ->].
      destruct (rb_slots _ _ _ B2 i Hi) as [_ ->].
      now destruct (D i Hi) as [_ ->].
  - rewrite (rb_output _ _ _ B3), (rb_output _ _ _ B2), (rb_output _ _ _ B1).
    reflexivity.
  - rewrite (rb_var_container _ _ _ B3), (rb_var_container _ _ _ B2).
    reflexivity.
  - rewrite (rb_n_input _ _ _ B3), (rb_n_input _ _ _ B2). reflexivity.
  - rewrite (rb_status _ _ _ B3), (rb_status _ _ _ B2). reflexivity.
Qed.

Lemma count_changes_compose_witness :
  exists st1 st2,
    setCount 4 form3_mass = Val st1
    /\ setCount 5 st1 = Val st2
    /\ setCount 5 form3_mass = Val st2.
Proof.
  apply (count_changes_compose form3_mass 4 5 reachable_form3_mass).
  vm_compute. discriminate.
Defined.

(** Before [create_interface] has run, and after it has run without the
    notebook modules (it then returns the object as it is), the widgets of
    the interface do not exist: the run handler and the count update raise
    [AttributeError], the two list accessors raise [KeyError] as soon as
    the count is at least 1, and the two dictionary accessors return the
    empty dictionary. *)
Theorem form_not_shown_has_no_widgets n t cb :
  create_variable_interface false n t cb = Val (__init__ n t cb)
  /\ _on_run (__init__ n t cb) = Exn AttributeError
  /\ _update_variable_count (__init__ n t cb) = Exn AttributeError
  /\ (forall m, setCount m (__init__ n t cb) = Exn AttributeError)
  /\ get_variables (__init__ n t cb) = Val []
  /\ get_values_by_name (__init__ n t cb) = Val []
  /\ (1 <= n -> get_values_list (__init__ n t cb) = Exn KeyError
                /\ get_names_list (__init__ n t cb) = Exn KeyError)
  /\ (n < 1 -> get_values_list (__init__ n t cb) = Val []
               /\ get_names_list (__init__ n t cb) = Val []).
Proof.
  split; [reflexivity |]. split; [reflexivity |]. split; [reflexivity |].
  split; [intros m; reflexivity |].
  split; [reflexivity |]. split; [reflexivity |].
  unfold get_values_list, get_names_list. simpl_vi. unfold py_range.
  replace (n + 1 - 1) with n by lia.
  split; intros H.
  - destruct (Z.to_nat n) as [| k] eqn:E; [lia |]. split; reflexivity.
  - replace (Z.to_nat n) with 0%nat by lia. split; reflexivity.
Qed.

End Lifecycle.

(* ------------------------------------------------------------------ *)
(** ** Names the evaluation does not know *)

Section UnknownNames.

(** An identifier that is no key of the namespace, not [__builtins__] and
    no reserved word raises [NameError] at the evaluation step, also as the
    callee of a call (before any argument is evaluated) and as the left
    operand of an operator (before the right operand is evaluated). *)
Theorem unknown_name_raises_NameError x :
  Text.mem x (Dict.keys namespace) = false ->
  x <> "__builtins__" ->
  Text.mem x keywords = false ->
  eval_expr (EName x) = Exn NameError
  /\ (forall args, eval_expr (ECall (EName x) args) = Exn NameError)
  /\ (forall op e, eval_expr (EBin op (EName x) e) = Exn NameError).
Proof.
  intros Hns Hb _.
  assert (L : lookup_name x = None).
  { destruct (lookup_name x) as [v |] eqn:E; [| reflexivity].
    destruct (lookup_name_bound x v E) as [Hin | Heq]; [| contradiction].
    apply text_mem_In in Hin. congruence. }
  cbn [eval_expr]. rewrite L. cbn [bind]. auto.
Qed.

Lemma unknown_name_raises_NameError_witness :
  eval_expr (EName "__import__") = Exn NameError
  /\ (forall args, eval_expr (ECall (EName "__import__") args) = Exn NameError)
  /\ (forall op e, eval_expr (EBin op (EName "__import__") e) = Exn NameError).
Proof.
  apply (unknown_name_raises_NameError "__import__"); [reflexivity | | reflexivity].
  discriminate.
Defined.

End UnknownNames.

(* ------------------------------------------------------------------ *)
(** ** Stripping and lower-casing *)

Module TextFacts.
Import Text.

Lemma append_nil_r s : s ++ "" = s.
Proof. induction s as [| c s IH]; cbn; [reflexivity | now rewrite IH]. Qed.

Lemma append_assoc s t u : (s ++ t) ++ u = s ++ (t ++ u).
Proof. induction s as [| c s IH]; cbn; [reflexivity | now rewrite IH]. Qed.

Lemma rev_onto_append s acc : rev_onto s acc = rev s ++ acc.
Proof.
  unfold rev. revert acc.
  induction s as [| c s IH]; intros acc; cbn [rev_onto]; [reflexivity |].
  rewrite (IH (String c acc)), (IH (String c "")), append_assoc. reflexivity.
Qed.

Lemma rev_cons c s : rev (String c s) = rev s ++ String c "".
Proof. unfold rev at 1. cbn [rev_onto]. apply rev_onto_append. Qed.

Lemma rev_append s t : rev (s ++ t) = rev t ++ rev s.
Proof.
  induction s as [| c s IH]; cbn [append].
  - cbn. now rewrite append_nil_r.
  - rewrite !rev_cons, IH, append_assoc. reflexivity.
Qed.

Lemma rev_involutive s : rev (rev s) = s.
Proof.
  induction s as [| c s IH]; [reflexivity |].
  rewrite rev_cons, rev_append, IH. reflexivity.
Qed.

Lemma forallb_append p s t : forallb p (s ++ t) = forallb p s && forallb p t.
Proof.
  induction s as [| c s IH]; cbn [append forallb]; [reflexivity |].
  now rewrite IH, andb_assoc.
Qed.

Lemma forallb_rev p s : forallb p (rev s) = forallb p s.
Proof.
  induction s as [| c s IH]; [reflexivity |].
  rewrite rev_cons, forallb_append, IH. cbn [forallb].
  rewrite andb_true_r. apply andb_comm.
Qed.

Lemma lstrip_append s t :
  lstrip (s ++ t) = if forallb is_space s then lstrip t else lstrip s ++ t.
Proof.
  induction s as [| c s IH]; cbn [append lstrip forallb]; [reflexivity |].
  destruct (is_space c); cbn [andb]; [exact IH | reflexivity].
Qed.

Lemma lstrip_all_space s : forallb is_space s = true -> lstrip s = "".
Proof.
  induction s as [| c s IH]; cbn [forallb lstrip]; [reflexivity |].
  destruct (is_space c); cbn [andb]; [exact IH | discriminate].
Qed.

(** [rstrip], from the left. *)
Lemma rstrip_cons c s :
  rstrip (String c s) =
  if forallb is_space (String c s) then "" else String c (rstrip s).
Proof.
  unfold rstrip. rewrite rev_cons, lstrip_append, forallb_rev.
  cbn [forallb lstrip].
  destruct (forallb is_space s) eqn:E.
  - rewrite andb_true_r.
    rewrite (lstrip_all_space (rev s)) by (now rewrite forallb_rev).
    destruct (is_space c); reflexivity.
  - rewrite andb_false_r, rev_append. reflexivity.
Qed.

Lemma rstrip_nil : rstrip "" = "".
Proof. reflexivity. Qed.

Lemma rstrip_all_space s : forallb is_space s = true -> rstrip s = "".
Proof. destruct s; [reflexivity |]. intros H. now rewrite rstrip_cons, H. Qed.

Lemma rstrip_not_all_space s :
  forallb is_space s = false -> forallb is_space (rstrip s) = false.
Proof.
  induction s as [| c s IH]; [discriminate |].
  intros H. rewrite rstrip_cons, H. cbn [forallb] in *.
  destruct (is_space c); cbn [andb] in *; [now apply IH | reflexivity].
Qed.

Lemma rstrip_idempotent s : rstrip (rstrip s) = rstrip s.
Proof.
  induction s as [| c s IH]; [reflexivity |].
  rewrite rstrip_cons. destruct (forallb is_space (String c s)) eqn:E.
  - reflexivity.
  - rewrite rstrip_cons, IH.
    replace (forallb is_space (String c (rstrip s))) with false; [reflexivity |].
    cbn [forallb] in *. destruct (is_space c); cbn [andb] in *; [| reflexivity].
    symmetry. now apply rstrip_not_all_space.
Qed.

(** A text stripped on the left is empty or starts with no blank, and
    stripping it on the right keeps that. *)
Lemma lstrip_rstrip_lstrip s : lstrip (rstrip (lstrip s)) = rstrip (lstrip s).
Proof.
  induction s as [| c s IH]; [reflexivity |].
  cbn [lstrip]. destruct (is_space c) eqn:E; [exact IH |].
  rewrite rstrip_cons. cbn [forallb]. rewrite E. cbn [andb lstrip].
  now rewrite E.
Qed.

Lemma strip_idempotent s : strip (strip s) = strip s.
Proof.
  unfold strip. rewrite lstrip_rstrip_lstrip. apply rstrip_idempotent.
Qed.

Lemma is_space_lower_char c : is_space (lower_char c) = is_space c.
Proof. destruct c as [[] [] [] [] [] [] [] []]; reflexivity. Qed.

Lemma lower_char_idempotent c : lower_char (lower_char c) = lower_char c.
Proof. destruct c as [[] [] [] [] [] [] [] []]; reflexivity. Qed.

Lemma is_ascii_lower_char c : is_ascii_char (lower_char c) = is_ascii_char c.
Proof. destruct c as [[] [] [] [] [] [] [] []]; reflexivity. Qed.

Lemma is_space_is_ascii c : is_space c = true -> is_ascii_char c = true.
Proof. destruct c as [[] [] [] [] [] [] [] []]; cbn; congruence. Qed.

Lemma lower_idempotent s : lower (lower s) = lower s.
Proof.
  induction s as [| c s IH]; cbn [lower]; [reflexivity |].
  now rewrite lower_char_idempotent, IH.
Qed.

Lemma forallb_is_space_lower s :
  forallb is_space (lower s) = forallb is_space s.
Proof.
  induction s as [| c s IH]; cbn [lower forallb]; [reflexivity |].
  now rewrite is_space_lower_char, IH.
Qed.

Lemma lstrip_lower s : lstrip (lower s) = lower (lstrip s).
Proof.
  induction s as [| c s IH]; cbn [lower lstrip]; [reflexivity |].
  rewrite is_space_lower_char. destruct (is_space c); [exact IH | reflexivity].
Qed.

Lemma rstrip_lower s : rstrip (lower s) = lower (rstrip s).
Proof.
  induction s as [| c s IH]; [reflexivity |].
  cbn [lower]. rewrite !rstrip_cons.
  change (String (lower_char c) (lower s)) with (lower (String c s)).
  rewrite forallb_is_space_lower.
  destruct (forallb is_space (String c s)); [reflexivity |].
  cbn [lower]. now rewrite IH.
Qed.

Lemma strip_lower s : strip (lower s) = lower (strip s).
Proof. unfold strip. now rewrite lstrip_lower, rstrip_lower. Qed.

Lemma is_ascii_lower s : is_ascii (lower s) = is_ascii s.
Proof.
  unfold is_ascii. induction s as [| c s IH]; cbn [lower forallb]; [reflexivity |].
  now rewrite is_ascii_lower_char, IH.
Qed.

Lemma all_space_is_ascii s : forallb is_space s = true -> is_ascii s = true.
Proof.
  unfold is_ascii. induction s as [| c s IH]; cbn [forallb]; [reflexivity |].
  intros H. apply andb_true_iff in H as [Hc Hs].
  now rewrite (is_space_is_ascii c Hc), IH.
Qed.

Lemma is_ascii_lstrip s : is_ascii (lstrip s) = is_ascii s.
Proof.
  induction s as [| c s IH]; [reflexivity |].
  cbn [lstrip]. destruct (is_space c) eqn:E; [| reflexivity].
  rewrite IH. unfold is_ascii. cbn [forallb].
  now rewrite (is_space_is_ascii c E).
Qed.

Lemma is_ascii_rstrip s : is_ascii (rstrip s) = is_ascii s.
Proof.
  induction s as [| c s IH]; [reflexivity |].
  rewrite rstrip_cons. destruct (forallb is_space (String c s)) eqn:E.
  - symmetry. now apply all_space_is_ascii.
  - unfold is_ascii in *. cbn [forallb]. now rewrite IH.
Qed.

Lemma is_ascii_strip s : is_ascii (strip s) = is_ascii s.
Proof. unfold strip. now rewrite is_ascii_rstrip, is_ascii_lstrip. Qed.

End TextFacts.

Section Normalisation.
Import TextFacts.

Lemma normalize_idempotent text : normalize (normalize text) = normalize text.
Proof.
  unfold normalize. now rewrite strip_lower, strip_idempotent, lower_idempotent.
Qed.

Lemma is_ascii_normalize text :
  Text.is_ascii (normalize text) = Text.is_ascii text.
Proof. unfold normalize. now rewrite is_ascii_lower, is_ascii_strip. Qed.

(** [parse_value] does not see the case of the letters of an ASCII text nor
    the blanks around it: the text and its stripped, lower-cased form parse
    to the same value, and a string that comes back from the fallback
    parses to itself. *)
Theorem parse_value_ignores_case_and_outer_blanks text :
  Text.is_ascii text = true ->
  parse_value (Text.lower (Text.strip text)) = parse_value text
  /\ (forall e, py_eval (normalize text) = Exn e ->
                py_float (normalize text) = FError ->
                Dict.get (normalize text) CONSTANTS = None ->
                exists s, parse_value text = Some (VStr s)
                          /\ parse_value s = Some (VStr s)).
Proof.
  intros Ha.
  assert (P : parse_value (normalize text) = parse_value text).
  { unfold parse_value. rewrite is_ascii_normalize, normalize_idempotent.
    reflexivity. }
  split; [exact P |].
  intros e He Hf Hc. exists (normalize text).
  assert (Q : parse_value text = Some (VStr (normalize text))).
  { unfold parse_value. rewrite Ha. cbn [negb]. rewrite Hc, He, Hf. reflexivity. }
  split; [exact Q |]. rewrite P. exact Q.
Qed.

Lemma parse_value_ignores_case_and_outer_blanks_witness :
  parse_value "2*pi" = parse_value "  2*PI ".
Proof.
  apply (parse_value_ignores_case_and_outer_blanks "  2*PI "). reflexivity.
Defined.

(** The builtins of the fragment behave as the fragment says. *)
Lemma fragment_builtins_agree : agree fragment_builtins.
Proof.
  constructor; cbn [fragment_builtins str_strip str_lower eval_in_namespace
                      float_of obj_of];
    intros; try reflexivity;
    match goal with H : _ = _ |- _ => rewrite H end; reflexivity.
Qed.

(** Whatever [parse_value] answers on a text is what [parse_value_with]
    returns for any builtins that behave as the fragment says where it
    answers. *)
Lemma parse_value_with_agree (obj : Type) (B : builtins obj) text v :
  agree B -> parse_value text = Some v -> parse_value_with B text = obj_of B v.
Proof.
  intros A. unfold parse_value, parse_value_with.
  destruct (Text.is_ascii text) eqn:Ha; cbn [negb]; [| discriminate].
  rewrite (agree_strip B A text Ha).
  rewrite (agree_lower B A (Text.strip text))
    by (rewrite TextFacts.is_ascii_strip; exact Ha).
  fold (normalize text).
  destruct (Dict.get (normalize text) CONSTANTS) as [c |];
    [intros [= ->]; reflexivity |].
  destruct (py_eval (normalize text)) as [r | e |] eqn:E; [| | discriminate].
  - intros [= ->]. rewrite (agree_eval_val B A _ _ E). reflexivity.
  - rewrite (agree_eval_exn B A _ _ E).
    destruct (py_float (normalize text)) as [x | |] eqn:Ef; [| | discriminate].
    + intros [= <-]. rewrite (agree_float_val B A _ _ Ef). reflexivity.
    + intros [= <-]. rewrite (agree_float_exn B A _ Ef). reflexivity.
Qed.

End Normalisation.

(* ------------------------------------------------------------------ *)
(** ** Integer numerals *)

Section Numerals.
Import TextFacts.

Lemma string_of_uint_digits d :
  Text.forallb Text.is_digit (NilEmpty.string_of_uint d) = true.
Proof. induction d; cbn [NilEmpty.string_of_uint Text.forallb]; auto. Qed.

Lemma digits_value_of_uint_acc d : forall acc,
  Text.digits_value (Z.pos acc) (NilEmpty.string_of_uint d) =
  Z.pos (Pos.of_uint_acc d acc).
Proof.
  induction d; intros acc;
    cbn [NilEmpty.string_of_uint Text.digits_value Pos.of_uint_acc];
    [reflexivity | ..]; rewrite <- IHd; f_equal;
    match goal with
    | |- context [Text.code ?c] =>
        let n := eval vm_compute in (Z.of_N (Text.code c)) in
        change (Z.of_N (Text.code c)) with n
    end; lia.
Qed.

Lemma digits_value_of_uint d :
  Text.digits_value 0 (NilEmpty.string_of_uint d) = Z.of_N (Pos.of_uint d).
Proof.
  induction d; cbn [NilEmpty.string_of_uint Text.digits_value Pos.of_uint];
    [reflexivity | exact IHd | ..]; apply digits_value_of_uint_acc.
Qed.

(** The decimal digits of a positive number do not start with a zero. *)
Lemma to_uint_no_leading_zero p l : Pos.to_uint p <> Decimal.D0 l.
Proof.
  intros E.
  assert (U : Decimal.unorm (Pos.to_uint p) = Pos.to_uint p).
  { rewrite <- (DecimalPos.Unsigned.to_of (Pos.to_uint p)).
    rewrite DecimalPos.Unsigned.of_to. reflexivity. }
  rewrite E in U. rewrite DecimalFacts.unorm_D0 in U.
  pose proof (DecimalFacts.unorm_nzhead l) as UN.
  destruct (Decimal.nzhead l) eqn:N;
    try (rewrite UN in U by discriminate; discriminate U).
  - apply (DecimalPos.Unsigned.to_uint_nonzero p).
    rewrite (proj2 (DecimalFacts.unorm_0 l) N) in U.
    rewrite E, <- U. reflexivity.
  - exact (DecimalFacts.nzhead_nonzero l _ N).
Qed.

Lemma span_all p s : Text.forallb p s = true -> Text.span p s = (s, "").
Proof.
  induction s as [| c s IH]; cbn [Text.forallb Text.span]; [reflexivity |].
  intros H. apply andb_true_iff in H as [-> Hs]. now rewrite IH.
Qed.

Lemma forallb_impl (p q : ascii -> bool) s :
  (forall c, p c = true -> q c = true) ->
  Text.forallb p s = true -> Text.forallb q s = true.
Proof.
  intros Hpq. induction s as [| c s IH]; cbn [Text.forallb]; [reflexivity |].
  intros H. apply andb_true_iff in H as [Hc Hs]. now rewrite (Hpq c Hc), IH.
Qed.

Lemma digit_is_plain c : Text.is_digit c = true -> is_plain c = true.
Proof. destruct c as [[] [] [] [] [] [] [] []]; cbn; congruence. Qed.

Lemma digit_is_ascii c : Text.is_digit c = true -> Text.is_ascii_char c = true.
Proof. destruct c as [[] [] [] [] [] [] [] []]; cbn; congruence. Qed.

Lemma digit_is_no_blank c :
  Text.is_digit c = true -> Ascii.eqb c " " || Ascii.eqb c tab = false.
Proof. destruct c as [[] [] [] [] [] [] [] []]; cbn; congruence. Qed.

Lemma lower_plain s : Text.forallb is_plain s = true -> Text.lower s = s.
Proof.
  induction s as [| c s IH]; cbn [Text.forallb Text.lower]; [reflexivity |].
  intros H. apply andb_true_iff in H as [Hc Hs]. rewrite (IH Hs). f_equal.
  unfold is_plain in Hc. apply andb_true_iff in Hc as [_ Hu].
  unfold Text.lower_char. now destruct (Text.is_upper c).
Qed.

Lemma rstrip_plain s : Text.forallb is_plain s = true -> Text.rstrip s = s.
Proof.
  induction s as [| c s IH]; [reflexivity |].
  cbn [Text.forallb]. intros H. apply andb_true_iff in H as [Hc Hs].
  rewrite rstrip_cons, (IH Hs). cbn [Text.forallb].
  unfold is_plain in Hc. apply andb_true_iff in Hc as [Hsp _].
  now destruct (Text.is_space c).
Qed.

Lemma lstrip_plain s : Text.forallb is_plain s = true -> Text.lstrip s = s.
Proof.
  destruct s as [| c s]; [reflexivity |].
  cbn [Text.forallb Text.lstrip]. intros H. apply andb_true_iff in H as [Hc _].
  unfold is_plain in Hc. apply andb_true_iff in Hc as [Hsp _].
  now destruct (Text.is_space c).
Qed.

Lemma normalize_plain s : Text.forallb is_plain s = true -> normalize s = s.
Proof.
  intros H. unfold normalize, Text.strip.
  now rewrite (lstrip_plain s H), (rstrip_plain s H), (lower_plain s H).
Qed.

(** No key of the constant table starts with a digit or a sign. *)
Lemma constants_start_with_a_letter c s :
  Text.is_ident_start c = false -> Dict.get (String c s) CONSTANTS = None.
Proof.
  destruct c as [[] [] [] [] [] [] [] []]; cbn; try discriminate; reflexivity.
Qed.

Lemma lex_number_digits c ds :
  Text.is_digit c = true -> c <> "0"%char ->
  Nat.leb (String.length (String c ds)) 4300 = true ->
  lex_number (String c ds) "" =
  Val (TNum (Text.digits_value 0 (String c ds)), "").
Proof.
  intros Hd Hz Hlen. unfold lex_number. rewrite Hlen. cbn [negb].
  destruct c as [[] [] [] [] [] [] [] []]; try discriminate Hd;
    try reflexivity.
  now contradiction Hz.
Qed.

Lemma tokenize_digits c ds fuel :
  Text.is_digit c = true -> c <> "0"%char ->
  Text.forallb Text.is_digit ds = true ->
  Nat.leb (String.length (String c ds)) 4300 = true ->
  (String.length (String c ds) < fuel)%nat ->
  tokenize fuel (String c ds) =
  Val [TNum (Text.digits_value 0 (String c ds))].
Proof.
  intros Hd Hz Hds Hlen Hfuel.
  destruct fuel as [| [| fuel]]; cbn [String.length] in Hfuel; try lia.
  cbn [tokenize]. rewrite (digit_is_no_blank c Hd), Hd.
  rewrite (span_all Text.is_digit (String c ds))
    by (cbn [Text.forallb]; now rewrite Hd, Hds).
  rewrite (lex_number_digits c ds Hd Hz Hlen). reflexivity.
Qed.

Lemma tokenize_minus fuel s :
  tokenize (S fuel) (String "-" s) = (ts <- tokenize fuel s ;; Val (TMinus :: ts)).
Proof. reflexivity. Qed.

(** The decimal numeral of a positive number: digits, the first of them
    no zero, with the number as value. *)
Lemma numeral_of_positive p :
  exists c ds,
    NilZero.string_of_uint (Pos.to_uint p) = String c ds
    /\ Text.is_digit c = true /\ c <> "0"%char
    /\ Text.forallb Text.is_digit ds = true
    /\ Text.digits_value 0 (String c ds) = Z.pos p.
Proof.
  assert (V := digits_value_of_uint (Pos.to_uint p)).
  rewrite DecimalPos.Unsigned.of_to in V. cbn [Z.of_N] in V.
  assert (D := string_of_uint_digits (Pos.to_uint p)).
  destruct (Pos.to_uint p) as [| l | l | l | l | l | l | l | l | l | l] eqn:E.
  - now destruct (DecimalPos.Unsigned.to_uint_nonnil p).
  - now destruct (to_uint_no_leading_zero p l).
  - exists "1"%char, (NilEmpty.string_of_uint l). repeat split; auto; discriminate.
  - exists "2"%char, (NilEmpty.string_of_uint l). repeat split; auto; discriminate.
  - exists "3"%char, (NilEmpty.string_of_uint l). repeat split; auto; discriminate.
  - exists "4"%char, (NilEmpty.string_of_uint l). repeat split; auto; discriminate.
  - exists "5"%char, (NilEmpty.string_of_uint l). repeat split; auto; discriminate.
  - exists "6"%char, (NilEmpty.string_of_uint l). repeat split; auto; discriminate.
  - exists "7"%char, (NilEmpty.string_of_uint l). repeat split; auto; discriminate.
  - exists "8"%char, (NilEmpty.string_of_uint l). repeat split; auto; discriminate.
  - exists "9"%char, (NilEmpty.string_of_uint l). repeat split; auto; discriminate.
Qed.

Lemma parse_value_digits c ds :
  Text.is_digit c = true -> c <> "0"%char ->
  Text.forallb Text.is_digit ds = true ->
  Nat.leb (String.length (String c ds)) 4300 = true ->
  parse_value (String c ds) = Some (VInt (Text.digits_value 0 (String c ds)))
  /\ parse_value (String "-" (String c ds)) =
       Some (VInt (- Text.digits_value 0 (String c ds))).
Proof.
  intros Hd Hz Hds Hlen.
  assert (Hall : Text.forallb Text.is_digit (String c ds) = true)
    by (cbn [Text.forallb]; now rewrite Hd, Hds).
  assert (Hplain := forallb_impl _ _ _ digit_is_plain Hall).
  assert (Hascii := forallb_impl _ _ _ digit_is_ascii Hall).
  assert (Hstart : Text.is_ident_start c = false)
    by (destruct c as [[] [] [] [] [] [] [] []]; cbn in Hd |- *; congruence).
  split.
  - unfold parse_value. fold (Text.is_ascii (String c ds)) in Hascii.
    rewrite Hascii. cbn [negb]. rewrite (normalize_plain _ Hplain).
    rewrite (constants_start_with_a_letter c ds Hstart).
    unfold py_eval. rewrite (tokenize_digits c ds _ Hd Hz Hds Hlen) by lia.
    reflexivity.
  - assert (Hplain' : Text.forallb is_plain (String "-" (String c ds)) = true)
      by (change (is_plain "-"%char && Text.forallb is_plain (String c ds) = true);
          rewrite Hplain; reflexivity).
    assert (Hascii' : Text.is_ascii (String "-" (String c ds)) = true)
      by (change (Text.is_ascii_char "-"%char
                  && Text.forallb Text.is_ascii_char (String c ds) = true);
          rewrite Hascii; reflexivity).
    unfold parse_value. rewrite Hascii'. cbn [negb].
    rewrite (normalize_plain _ Hplain').
    rewrite (constants_start_with_a_letter "-" _ eq_refl).
    unfold py_eval. cbn [String.length]. rewrite tokenize_minus.
    rewrite (tokenize_digits c ds _ Hd Hz Hds Hlen)
      by (cbn [String.length]; lia).
    reflexivity.
Qed.

(** The decimal numeral of every integer, as [str] writes it (an optional
    minus sign and 4300 digits at most, the limit of Python's integer
    literals), parses back to that integer. *)
Theorem integer_numeral_parses_to_the_integer z :
  (numeral_digits z <= 4300)%nat ->
  parse_value (str_of_int z) = Some (VInt z).
Proof.
  unfold numeral_digits. intros Hlen. destruct z as [| p | p].
  - reflexivity.
  - destruct (numeral_of_positive p) as (c & ds & E & Hd & Hz & Hds & V).
    unfold str_of_int in *. cbn [Z.abs Z.to_int NilZero.string_of_int] in *.
    rewrite E in Hlen |- *. rewrite <- V.
    apply parse_value_digits; auto.
    now apply Nat.leb_le.
  - destruct (numeral_of_positive p) as (c & ds & E & Hd & Hz & Hds & V).
    unfold str_of_int in *. cbn [Z.abs Z.to_int NilZero.string_of_int] in *.
    rewrite E in Hlen |- *. rewrite <- Pos2Z.opp_pos, <- V.
    apply parse_value_digits; auto.
    now apply Nat.leb_le.
Qed.

Lemma integer_numeral_parses_to_the_integer_witness :
  parse_value "-2026" = Some (VInt (-2026)).
Proof.
  apply (integer_numeral_parses_to_the_integer (-2026)).
  apply Nat.leb_le. reflexivity.
Defined.

End Numerals.

(* ------------------------------------------------------------------ *)
(** ** The rows shown, displaying again, and a missing name widget *)

Section Display.
Import DictFacts.

Lemma build_rows_container st st' :
  _build_variable_rows st = Val st' ->
  var_container st' = Some (rows_for (n_variables st))
  /\ n_variables st' = n_variables st.
Proof.
  unfold _build_variable_rows.
  destruct (keys_to_remove _ _) as [ks | |]; try discriminate.
  cbn [bind]. destruct (del_keys _ _) as [ws | |]; try discriminate.
  cbn [bind]. destruct (var_container st); [| discriminate].
  intros [= <-]. simpl_vi. auto.
Qed.

(** On every displayed form, the container holds the row of column headers
    followed by exactly one row per slot, in index order, for the current
    count. *)
Theorem container_shows_one_row_per_slot st :
  reachable st ->
  var_container st =
    Some (col_header :: map var_row (py_range 1 (n_variables st + 1)))%list.
Proof.
  induction 1 as [n t cb st H | st ev st' R IH H].
  - revert H. unfold create_variable_interface, create_interface. cbn [negb].
    destruct (_build_variable_rows _) as [st0 | |] eqn:E; try discriminate.
    cbn [bind]. intros [= <-]. simpl_vi.
    destruct (build_rows_container _ _ E) as [-> ->]. reflexivity.
  - assert (I := reachable_Inv st R).
    destruct ev as [key s | key s | n | |]; cbn [handle] in H.
    + injection H as <-. exact IH.
    + injection H as <-. exact IH.
    + destruct (n_input st); [| discriminate]. injection H as <-. exact IH.
    + destruct (update_variable_count_spec st I) as (m & st0 & _ & H0 & B & _).
      rewrite H0 in H. injection H as <-.
      rewrite (rb_var_container _ _ _ B), (rb_count _ _ _ B). reflexivity.
    + destruct (on_run_spec st I) as (st0 & H0 & S & _).
      rewrite H0 in H. injection H as <-.
      rewrite (sf_var_container _ _ S), (sf_count _ _ S). exact IH.
Qed.

Lemma container_shows_one_row_per_slot_witness :
  var_container form3 = Some [col_header; var_row 1; var_row 2; var_row 3].
Proof. apply (container_shows_one_row_per_slot form3 reachable_form3). Defined.

(** Displaying a displayed form again with [create_interface] returns a
    form with the same count and the very same value and name widgets; the
    count box is set back to the count, the status to ready, and the
    output is a new, empty one. *)
Theorem displaying_again_keeps_the_slots st :
  reachable st ->
  exists st',
    create_interface true st = Val st'
    /\ n_variables st' = n_variables st
    /\ value_widgets st' = value_widgets st
    /\ name_widgets st' = name_widgets st
    /\ n_input st' = Some (n_variables st)
    /\ status st' = Some Ready
    /\ output st' = Some (mkOutput [] false).
Proof.
  intros R. assert (I := reachable_Inv st R).
  unfold create_interface. cbn [negb].
  destruct (build_rows_spec
              (with_var_container [] (with_n_input (n_variables st) st))
              (Z.to_nat (n_variables st)))
    as (vw & nw & Hb & Kv & Kn & Hs).
  - simpl_vi. rewrite <- var_keys_vk. apply I.
  - simpl_vi. rewrite <- var_keys_vk. apply I.
  - simpl_vi. discriminate.
  - rewrite Hb. cbn [bind]. simpl_vi in Kv. simpl_vi in Kn. simpl_vi in Hs.
    eexists. split; [reflexivity |]. simpl_vi.
    split; [reflexivity |].
    split; [| split; [| auto]].
    + apply dict_ext.
      * rewrite Kv. symmetry. apply I.
      * rewrite Kv, var_keys_vk. apply NoDup_vk.
      * intros k Hk. rewrite Kv in Hk. apply in_var_keys in Hk as (i & Hi & ->).
        destruct (Hs i Hi) as [-> _].
        destruct (Inv_get_some st i I Hi) as (v & w & -> & _). reflexivity.
    + apply dict_ext.
      * rewrite Kn. symmetry. apply I.
      * rewrite Kn, var_keys_vk. apply NoDup_vk.
      * intros k Hk. rewrite Kn in Hk. apply in_var_keys in Hk as (i & Hi & ->).
        destruct (Hs i Hi) as [_ ->].
        destruct (Inv_get_some st i I Hi) as (v & w & _ & ->). reflexivity.
Qed.

Lemma displaying_again_keeps_the_slots_witness :
  exists st',
    create_interface true form3_mass = Val st'
    /\ Dict.get "var2" (value_widgets st') = Some (mkText "5" value_placeholder)
    /\ Dict.get "var2" (name_widgets st') = Some (mkText "mass" (name_placeholder 2)).
Proof.
  destruct (displaying_again_keeps_the_slots form3_mass reachable_form3_mass)
    as (st' & H & _ & Hv & Hn & _).
  exists st'. split; [exact H |]. rewrite Hv, Hn. split; reflexivity.
Defined.

End Display.
